(** * Quantum Battleship: the measurement-encoding engine

    A shallow embedding of the engines of [app.py] (the same text is
    repeated in [war_room.py]): the sonar ping, the inverse Fourier
    builder and the counting scan, with the part of Qiskit they drive and
    the two HTTP handlers that call them.

    - Circuits are mutable Python objects.  They live in a heap of circuit
      objects and are handled through references; every Qiskit method is a
      command of a state-and-exception monad [Py].
    - Angles are floats in the source.  Every angle the program computes is
      [pi] scaled by a power of two, which binary floating point does by
      changing the exponent only; angles are modelled as exact dyadic
      multiples of [pi].  A division of a float by an integer converts the
      integer to a float first, and raises [OverflowError] when the
      integer is beyond the float range: this is modelled ([float_div]).
    - The execution backend (Qiskit Aer) is modelled as an exact
      state-vector simulator over the ring Z[zeta], zeta = exp(i*pi/4).
      The factor 1/sqrt 2 of each Hadamard is left out: it is a non-zero
      global factor and does not change which outcomes have non-zero
      probability.  A shot returns one of the outcomes of non-zero
      probability, picked by the entropy held in the world.
    - The transpiler is a parameter of the engines: any transformation of
      circuits that keeps the set of possible outcomes. *)

From stdpp Require Import base list strings gmap pretty.
From Stdlib Require Import ZArith NArith Lia Ascii.

Local Open Scope Z_scope.
Local Open Scope nat_scope.

(* ================================================================== *)
(** * Part I: the program *)

(* ------------------------------------------------------------------ *)
(** ** Angles: dyadic multiples of pi *)

(** [mkAngle k e] is the angle [k * pi / 2^e], kept in lowest terms. *)
Record Angle := mkAngle { a_num : Z; a_exp : nat }.

Fixpoint angle_norm (k : Z) (e : nat) : Angle :=
  match e with
  | O => mkAngle k O
  | S e' => if Z.even k then angle_norm (k / 2) e' else mkAngle k e
  end.

(** [np.pi] *)
Definition np_pi : Angle := mkAngle 1 0.

(** unary minus *)
Definition angle_neg (a : Angle) : Angle := mkAngle (- a_num a) (a_exp a).

(** [a / d] for [d] a power of two (the only divisors in the program) *)
Definition angle_div (a : Angle) (d : Z) : Angle :=
  angle_norm (a_num a) (a_exp a + Z.to_nat (Z.log2 d)).

(** [m * a] for an integer [m] *)
Definition angle_mul (m : Z) (a : Angle) : Angle :=
  angle_norm (m * a_num a) (a_exp a).

(** The largest float is [2^1024 - 2^971]; an integer converts to a float
    when it rounds to a float in range, that is when it is below
    [2^1024 - 2^970]. *)
Definition float_max_int : Z := 2 ^ 1024 - 2 ^ 970.

(* ------------------------------------------------------------------ *)
(** ** Circuits *)

Inductive Instruction :=
| HGate (q : nat)
| XGate (q : nat)
| CXGate (control target : nat)
| CPhaseGate (theta : Angle) (control target : nat)
| SwapGate (qa qb : nat)
| Measure (q : nat) (c : nat)
| Barrier.

Record QuantumCircuit := mkQC {
  num_qubits : nat;
  num_clbits : nat;
  data : list Instruction
}.

#[global] Instance Angle_eq_dec : EqDecision Angle.
Proof. solve_decision. Defined.

#[global] Instance Instruction_eq_dec : EqDecision Instruction.
Proof. solve_decision. Defined.

(** Qiskit's check of the arguments of an instruction: every qubit and
    clbit index is in range, and a gate on two qubits names two different
    qubits. *)
Definition valid_instr (nq nc : nat) (g : Instruction) : bool :=
  match g with
  | HGate q | XGate q => q <? nq
  | CXGate c t | CPhaseGate _ c t | SwapGate c t =>
      (c <? nq) && (t <? nq) && negb (c =? t)
  | Measure q c => (q <? nq) && (c <? nc)
  | Barrier => true
  end.

(** Qubit [k] of a sub-circuit becomes qubit [qargs[k]] of its host. *)
Definition remap (qargs : list nat) (g : Instruction) : Instruction :=
  let m := fun k => nth k qargs k in
  match g with
  | HGate q => HGate (m q)
  | XGate q => XGate (m q)
  | CXGate c t => CXGate (m c) (m t)
  | CPhaseGate th c t => CPhaseGate th (m c) (m t)
  | SwapGate a b => SwapGate (m a) (m b)
  | Measure q c => Measure (m q) c
  | Barrier => Barrier
  end.

(* ------------------------------------------------------------------ *)
(** ** The Python world *)

(** A heap of circuit objects, and the entropy the simulator draws its
    shots from. *)
Definition ref := nat.

Record World := mkWorld {
  heap : list QuantumCircuit;
  entropy : nat -> nat
}.

Inductive Exception :=
| IndexError      (* list index out of range *)
| KeyError        (* missing dictionary key *)
| AttributeError  (* a method of None *)
| ValueError      (* invalid literal for int() *)
| CircuitError    (* Qiskit refuses the arguments of an instruction *)
| AerError        (* the simulator cannot run the circuit *)
| OverflowError   (* int too large to convert to float *)
| DanglingRef.    (* a reference outside the heap; the program raises none *)

Inductive Outcome (A : Type) :=
| Return (a : A) (w : World)
| Raise (e : Exception) (w : World).
Arguments Return {A} a w.
Arguments Raise {A} e w.

Record Py (A : Type) := mkPy { run : World -> Outcome A }.
Arguments mkPy {A} _.
Arguments run {A} _ _.

#[global] Instance Py_ret : MRet Py := fun A a => mkPy (fun w => Return a w).

#[global] Instance Py_bind : MBind Py := fun A B k m =>
  mkPy (fun w =>
    match run m w with
    | Return a w' => run (k a) w'
    | Raise e w' => Raise e w'
    end).

Definition raise {A} (e : Exception) : Py A := mkPy (fun w => Raise e w).

(** [for x in l: body x] *)
Fixpoint for_ {A} (l : list A) (body : A -> Py unit) : Py unit :=
  match l with
  | [] => mret tt
  | x :: l' => body x ;; for_ l' body
  end.

(** [[f x for x in l if cond x]] *)
Fixpoint list_comp {A B} (f : A -> Py B) (cond : A -> bool) (l : list A)
  : Py (list B) :=
  match l with
  | [] => mret []
  | x :: l' =>
      if cond x
      then y ← f x; ys ← list_comp f cond l'; mret (y :: ys)
      else list_comp f cond l'
  end.

(** [range(a, b)], [reversed(l)], [enumerate(l)] and [l[i]] *)
Definition range (a b : nat) : list nat := seq a (b - a).
Definition reversed {A} (l : list A) : list A := rev l.
Definition enumerate {A} (l : list A) : list (nat * A) :=
  combine (seq 0 (length l)) l.
Definition getitem {A} (l : list A) (i : nat) : Py A :=
  match l !! i with
  | Some x => mret x
  | None => raise IndexError
  end.

(** [s[::-1]] and [s[-1]]; iterating over a [str] gives its characters as
    strings of length one *)
Definition string_rev (s : string) : string :=
  String.string_of_list_ascii (rev (String.list_ascii_of_string s)).

Definition str_last (s : string) : Py string :=
  match rev (String.list_ascii_of_string s) with
  | c :: _ => mret (String c EmptyString)
  | [] => raise IndexError
  end.

Definition str_iter (s : string) : list string :=
  map (fun c => String c EmptyString) (String.list_ascii_of_string s).

Definition digit_of (c : ascii) : option Z :=
  let n := nat_of_ascii c in
  if (48 <=? n) && (n <=? 57) then Some (Z.of_nat (n - 48)) else None.

Fixpoint int_digits (base acc : Z) (l : list ascii) : option Z :=
  match l with
  | [] => Some acc
  | c :: l' =>
      d ← digit_of c;
      if (d <? base)%Z then int_digits base (acc * base + d)%Z l' else None
  end.

(** [int(s, base)] on a string of digits.  Measurement strings are strings
    of digits; signs, blanks and underscores are not modelled. *)
Definition int (s : string) (base : Z) : Py Z :=
  match String.list_ascii_of_string s with
  | [] => raise ValueError
  | l => match int_digits base 0 l with
         | Some v => mret v
         | None => raise ValueError
         end
  end.

(** [d[k]] on the board *)
Definition dict_getitem (d : gmap string bool) (k : string) : Py bool :=
  match d !! k with
  | Some v => mret v
  | None => raise KeyError
  end.

(* ------------------------------------------------------------------ *)
(** ** Circuit objects and the Qiskit methods *)

Definition set_heap (w : World) (h : list QuantumCircuit) : World :=
  mkWorld h (entropy w).

(** a new object, at the end of the heap *)
Definition alloc (c : QuantumCircuit) : Py ref :=
  mkPy (fun w => Return (length (heap w)) (set_heap w (heap w ++ [c]))).

Definition deref (r : ref) : Py QuantumCircuit :=
  mkPy (fun w =>
    match heap w !! r with
    | Some c => Return c w
    | None => Raise DanglingRef w
    end).

Definition assign (r : ref) (c : QuantumCircuit) : Py unit :=
  mkPy (fun w => Return tt (set_heap w (<[r := c]> (heap w)))).

(** [QuantumCircuit(nq, nc)] *)
Definition new_QuantumCircuit (nq nc : nat) : Py ref := alloc (mkQC nq nc []).

(** one more instruction on the circuit object behind [r] *)
Definition append_instr (r : ref) (g : Instruction) : Py unit :=
  c ← deref r;
  if valid_instr (num_qubits c) (num_clbits c) g
  then assign r (mkQC (num_qubits c) (num_clbits c) (data c ++ [g]))
  else raise CircuitError.

Definition qc_h (qc : ref) (q : nat) : Py unit := append_instr qc (HGate q).
Definition qc_x (qc : ref) (q : nat) : Py unit := append_instr qc (XGate q).
Definition qc_cx (qc : ref) (c t : nat) : Py unit := append_instr qc (CXGate c t).
Definition qc_cp (qc : ref) (theta : Angle) (c t : nat) : Py unit :=
  append_instr qc (CPhaseGate theta c t).
Definition qc_swap (qc : ref) (a b : nat) : Py unit := append_instr qc (SwapGate a b).
Definition qc_measure (qc : ref) (q c : nat) : Py unit := append_instr qc (Measure q c).
Definition qc_barrier (qc : ref) : Py unit := append_instr qc Barrier.

(** [qc.h(qubits)] on a list: one gate per qubit, in list order *)
Definition qc_h_list (qc : ref) (qs : list nat) : Py unit := for_ qs (qc_h qc).

(** [qc.measure(qubits, clbits)] on two lists of one length: pairwise *)
Definition qc_measure_list (qc : ref) (qs cs : list nat) : Py unit :=
  if length qs =? length cs
  then for_ (combine qs cs) (fun qc_pair => qc_measure qc qc_pair.1 qc_pair.2)
  else raise CircuitError.

(** [qc.append(sub, qargs)]: the gates of [sub] on the qubits [qargs] of
    [qc].  Qiskit keeps them as one composite instruction whose definition
    is [sub]; they are modelled inlined, which is how they execute. *)
Definition qc_append (qc sub : ref) (qargs : list nat) : Py unit :=
  s ← deref sub;
  c ← deref qc;
  if (length qargs =? num_qubits s) && (num_clbits s =? 0)
     && forallb (fun q => q <? num_qubits c) qargs
     && bool_decide (NoDup qargs)
  then assign qc (mkQC (num_qubits c) (num_clbits c)
                       (data c ++ map (remap qargs) (data s)))
  else raise CircuitError.

(* ------------------------------------------------------------------ *)
(** ** The execution backend: an exact state-vector simulator *)

(** Amplitudes live in Z[zeta] with zeta = exp(i*pi/4), zeta^4 = -1:
    [mkZ8 a b c d] is a + b*zeta + c*zeta^2 + d*zeta^3.  The four powers
    are linearly independent over the integers, so an amplitude is zero
    exactly when its four coefficients are. *)
Record Z8 := mkZ8 { z_c0 : Z; z_c1 : Z; z_c2 : Z; z_c3 : Z }.

Definition z8_zero : Z8 := mkZ8 0 0 0 0.
Definition z8_one : Z8 := mkZ8 1 0 0 0.

Definition z8_add (x y : Z8) : Z8 :=
  mkZ8 (z_c0 x + z_c0 y) (z_c1 x + z_c1 y) (z_c2 x + z_c2 y) (z_c3 x + z_c3 y).

Definition z8_sub (x y : Z8) : Z8 :=
  mkZ8 (z_c0 x - z_c0 y) (z_c1 x - z_c1 y) (z_c2 x - z_c2 y) (z_c3 x - z_c3 y).

(** multiplication by zeta *)
Definition z8_rot (x : Z8) : Z8 := mkZ8 (- z_c3 x) (z_c0 x) (z_c1 x) (z_c2 x).

(** multiplication by zeta^k *)
Definition z8_phase (k : Z) (x : Z8) : Z8 :=
  Nat.iter (Z.to_nat (k mod 8)) z8_rot x.

Definition z8_is_zero (x : Z8) : bool :=
  (z_c0 x =? 0)%Z && (z_c1 x =? 0)%Z && (z_c2 x =? 0)%Z && (z_c3 x =? 0)%Z.

(** the angle counted in steps of pi/4, when it is a multiple of pi/4 *)
Definition eighth_turns (th : Angle) : option Z :=
  if a_exp th <=? 2
  then Some (a_num th * 2 ^ Z.of_nat (2 - a_exp th))%Z
  else None.

(** A state of [n] qubits: the amplitude of the basis state [k] sits at
    position [k], and qubit [q] is bit [q] of [k]. *)
Definition amp (psi : list Z8) (k : N) : Z8 := nth (N.to_nat k) psi z8_zero.

Definition tabulate (n : nat) (f : N -> Z8) : list Z8 :=
  map (fun k => f (N.of_nat k)) (seq 0 (2 ^ n)).

Definition bit (k : N) (q : nat) : bool := N.testbit k (N.of_nat q).
Definition flip (k : N) (q : nat) : N := N.lxor k (N.shiftl 1 (N.of_nat q)).

Definition ket0 (n : nat) : list Z8 :=
  tabulate n (fun k => if (k =? 0)%N then z8_one else z8_zero).

(** One unitary instruction; [None] for a phase finer than pi/4, which is
    outside the ring.  The Hadamard is the matrix ((1, 1), (1, -1)). *)
Definition apply_gate (n : nat) (g : Instruction) (psi : list Z8)
  : option (list Z8) :=
  match g with
  | HGate q =>
      Some (tabulate n (fun k =>
        if bit k q then z8_sub (amp psi (flip k q)) (amp psi k)
        else z8_add (amp psi k) (amp psi (flip k q))))
  | XGate q => Some (tabulate n (fun k => amp psi (flip k q)))
  | CXGate c t =>
      Some (tabulate n (fun k =>
        if bit k c then amp psi (flip k t) else amp psi k))
  | CPhaseGate th c t =>
      e ← eighth_turns th;
      Some (tabulate n (fun k =>
        if bit k c && bit k t then z8_phase e (amp psi k) else amp psi k))
  | SwapGate a b =>
      Some (tabulate n (fun k =>
        if xorb (bit k a) (bit k b) then amp psi (flip (flip k a) b)
        else amp psi k))
  | Measure _ _ | Barrier => Some psi
  end.

(** the state after qubit [q] was found to be [b], not renormalised *)
Definition project (n : nat) (q : nat) (b : bool) (psi : list Z8) : list Z8 :=
  tabulate n (fun k => if Bool.eqb (bit k q) b then amp psi k else z8_zero).

Definition nonzero (psi : list Z8) : bool :=
  existsb (fun x => negb (z8_is_zero x)) psi.

(** All runs of a program.  A measurement branches into its results of
    non-zero probability and writes the result into its classical bit; the
    value is the list of the final classical registers. *)
Fixpoint exec (n : nat) (prog : list Instruction) (psi : list Z8)
    (cl : list bool) : option (list (list bool)) :=
  match prog with
  | [] => Some [cl]
  | Measure q c :: rest =>
      let psi0 := project n q false psi in
      let psi1 := project n q true psi in
      r0 ← (if nonzero psi0 then exec n rest psi0 (<[c := false]> cl)
            else Some []);
      r1 ← (if nonzero psi1 then exec n rest psi1 (<[c := true]> cl)
            else Some []);
      Some (r0 ++ r1)
  | g :: rest => psi' ← apply_gate n g psi; exec n rest psi' cl
  end.

(** Qiskit writes a classical register with bit 0 on the right. *)
Fixpoint bits_to_string (l : list bool) : string :=
  match l with
  | [] => EmptyString
  | b :: l' => String (if b then "1" else "0")%char (bits_to_string l')
  end.

Definition bitstring (cl : list bool) : string := bits_to_string (rev cl).

(** the measurement strings a circuit can produce *)
Definition outcomes (c : QuantumCircuit) : option (list string) :=
  map bitstring <$>
    exec (num_qubits c) (data c) (ket0 (num_qubits c))
         (replicate (num_clbits c) false).

(** [shots] samples among the possible outcomes *)
Fixpoint draw (outs : list string) (shots : nat) (tape : nat -> nat)
  : list string :=
  match shots with
  | O => []
  | S k =>
      nth (tape 0 mod length outs) outs EmptyString
        :: draw outs k (fun i => tape (S i))
  end.

(** [simulator.run(qc, shots=shots).result()], for [simulator] a fresh
    [AerSimulator()], which holds no state of its own *)
Definition simulator_run (qc : ref) (shots : nat) : Py (list string) :=
  c ← deref qc;
  match outcomes c with
  | None => raise AerError
  | Some outs =>
      mkPy (fun w =>
        Return (draw outs shots (entropy w))
               (mkWorld (heap w) (fun i => entropy w (shots + i))))
  end.

(** [result.get_counts(qc)]: a dict from measurement string to count, as
    an association list in insertion order *)
Fixpoint tally (s : string) (d : list (string * nat)) : list (string * nat) :=
  match d with
  | [] => [(s, 1)]
  | (k, v) :: d' => if String.eqb k s then (k, S v) :: d' else (k, v) :: tally s d'
  end.

Definition get_counts (result : list string) : list (string * nat) :=
  fold_left (fun d s => tally s d) result [].

Definition keys {K V} (d : list (K * V)) : list K := map fst d.

(* ------------------------------------------------------------------ *)
(** ** The engines *)

(** [swap_qubits(qc, n)] *)
Definition swap_qubits (qc : ref) (n : nat) : Py ref :=
  for_ (range 0 (n / 2)) (fun i => qc_swap qc i (n - i - 1)) ;;
  mret qc.

(** [a / d] for a float [a] and an [int] [d]: Python converts [d] to a
    float, which raises [OverflowError] when [d] is too large, and divides.
    For [d] a power of two within range the quotient is exact: the
    smallest angle so computed, [pi / 2^1023], is still a normal float. *)
Definition float_div (a : Angle) (d : Z) : Py Angle :=
  if (float_max_int <=? d)%Z then raise OverflowError
  else mret (angle_div a d).

(** [iqft_gate(n_qubits)] *)
Definition iqft_gate (n_qubits : nat) : Py ref :=
  qc ← new_QuantumCircuit n_qubits 0;
  swap_qubits qc n_qubits ;;
  for_ (reversed (range 0 n_qubits)) (fun i =>
    for_ (reversed (range (i + 1) n_qubits)) (fun j =>
      angle ← float_div (angle_neg np_pi) (2 ^ Z.of_nat (j - i));
      qc_cp qc angle j i) ;;
    qc_h qc i) ;;
  mret qc.

Section Engines.

(** [transpile(qc, simulator)] returns a new circuit object; which circuit
    it is, is the transpiler's business. *)
Variable transpile_pass : QuantumCircuit -> QuantumCircuit.

Definition transpile (qc : ref) : Py ref :=
  c ← deref qc;
  alloc (transpile_pass c).

(** [run_quantum_sonar_ping(target_is_ship)] *)
Definition run_quantum_sonar_ping (target_is_ship : bool) : Py (Z * ref) :=
  let probe_qubit := 0 in
  let target_qubit := 1 in
  qc ← new_QuantumCircuit 2 1;
  (if target_is_ship then qc_x qc target_qubit else mret tt) ;;
  qc_barrier qc ;;
  qc_h qc probe_qubit ;;
  qc_h qc target_qubit ;;
  qc_cx qc probe_qubit target_qubit ;;
  qc_h qc target_qubit ;;
  qc_h qc probe_qubit ;;
  qc_barrier qc ;;
  qc_measure qc probe_qubit 0 ;;
  transpiled_qc ← transpile qc;
  result ← simulator_run transpiled_qc 1;
  let counts := get_counts result in
  key ← getitem (keys counts) 0;
  measurement_outcome ← int key 10;
  mret (measurement_outcome, transpiled_qc).

(** [run_quantum_counting_scan(targets)] *)
Definition run_quantum_counting_scan (targets : list bool) : Py (Z * ref) :=
  let n_counting_qubits := 3 in
  let n_target_qubits := 4 in
  let counting_register := range 0 n_counting_qubits in
  let target_register :=
    range n_counting_qubits (n_counting_qubits + n_target_qubits) in
  qc ← new_QuantumCircuit (n_counting_qubits + n_target_qubits)
                          n_counting_qubits;
  ship_indices ←
    list_comp (fun e => getitem target_register e.1) (fun e => e.2)
              (enumerate targets);
  for_ ship_indices (fun i => qc_x qc i) ;;
  qc_h_list qc counting_register ;;
  let base_phase := angle_div np_pi 4 in
  for_ counting_register (fun c_idx =>
    let power := n_counting_qubits - 1 - c_idx in
    let angle := angle_mul (2 ^ Z.of_nat power) base_phase in
    for_ ship_indices (fun t_idx => qc_cp qc angle c_idx t_idx)) ;;
  qc_barrier qc ;;
  iqft ← iqft_gate n_counting_qubits;
  qc_append qc iqft counting_register ;;
  qc_barrier qc ;;
  qc_measure_list qc counting_register counting_register ;;
  transpiled_qc ← transpile qc;
  result ← simulator_run transpiled_qc 1;
  let counts := get_counts result in
  binary_count ← getitem (keys counts) 0;
  integer_count ← int (string_rev binary_count) 2;
  mret (integer_count, transpiled_qc).

(* ------------------------------------------------------------------ *)
(** ** The HTTP handlers of [app.py] *)

(** [GAME_BOARD] is filled once, when the module is loaded, and only read
    afterwards. *)
Variable GAME_BOARD : gmap string bool.

Definition ROWS : string := "ABCD".
Definition COLS : string := "1234".

Inductive Response :=
| JsonPing (id : string) (result : Z)          (* {"id": .., "result": ..} *)
| JsonScan (id : string) (count : Z)           (* {"id": .., "count": ..} *)
| JsonError (error : string) (status : nat).   (* {"error": ..}, status *)

(** [handle_ping()], on the JSON object of the request.  [data] holds the
    members of the object whose value is a string: the handlers are
    modelled for the requests whose body is a JSON object in which the id
    is absent or a string (the front end sends the id of a button).  A
    body that is not an object, and an id that is a number, a boolean,
    null, a list or an object, are outside this model. *)
Definition handle_ping (data : gmap string string) : Py Response :=
  match data !! "id" with
  | None => mret (JsonError "No ID provided" 400)
  | Some button_id =>
      if decide (button_id = EmptyString)
      then mret (JsonError "No ID provided" 400)
      else
        let is_ship := default false (GAME_BOARD !! button_id) in
        '(measurement, _) ← run_quantum_sonar_ping is_ship;
        mret (JsonPing button_id measurement)
  end.

(** [handle_scan()], on the JSON object of the request, modelled for the
    same requests as [handle_ping].  An absent id is [None], which has no
    [startswith]. *)
Definition handle_scan (data : gmap string string) : Py Response :=
  match data !! "id" with
  | None => raise AttributeError
  | Some scan_id =>
      let scan targets_to_scan :=
        '(count, _) ← run_quantum_counting_scan targets_to_scan;
        mret (JsonScan scan_id count) in
      if String.prefix "scan-row-" scan_id then
        row ← str_last scan_id;
        targets_to_scan ←
          list_comp (fun c => dict_getitem GAME_BOARD (row +:+ c))
                    (fun _ => true) (str_iter COLS);
        scan targets_to_scan
      else if String.prefix "scan-col-" scan_id then
        col ← str_last scan_id;
        targets_to_scan ←
          list_comp (fun r => dict_getitem GAME_BOARD (r +:+ col))
                    (fun _ => true) (str_iter ROWS);
        scan targets_to_scan
      else mret (JsonError "Invalid scan ID" 400)
  end.

End Engines.

(* ------------------------------------------------------------------ *)
(** ** The game state, as the module builds it when it is loaded *)

Definition SHIP_COUNT : nat := 4.

(** [[f"{r}{c}" for r in ROWS for c in COLS]] *)
Definition all_coords : list string :=
  r ← str_iter ROWS; c ← str_iter COLS; [r +:+ c].

(** [random.sample(population, k)]: [k] elements taken at [k] different
    positions of the population, in the order drawn; [ValueError] when the
    population is smaller than [k]. *)
Fixpoint sample_from {A} (pool : list A) (k : nat) (tape : nat -> nat)
  : list A :=
  match k with
  | O => []
  | S k' =>
      let j := tape 0 mod length pool in
      match pool !! j with
      | Some x => x :: sample_from (delete j pool) k' (fun i => tape (S i))
      | None => []
      end
  end.

Definition random_sample {A} (population : list A) (k : nat) : Py (list A) :=
  if length population <? k then raise ValueError
  else mkPy (fun w =>
         Return (sample_from population k (entropy w))
                (mkWorld (heap w) (fun i => entropy w (k + i)))).

(** [{coord: (coord in ship_locations) for coord in all_coords}] *)
Definition make_board (ship_locations : list string) : gmap string bool :=
  foldl (fun d coord => <[coord := bool_decide (coord ∈ ship_locations)]> d)
        ∅ all_coords.

(** the module-level statements from [ship_locations = ...] to
    [GAME_BOARD = ...]; the value is the pair of both globals *)
Definition init_game : Py (list string * gmap string bool) :=
  ship_locations ← random_sample all_coords SHIP_COUNT;
  mret (ship_locations, make_board ship_locations).

(* ------------------------------------------------------------------ *)
(** ** The terminal interface of [war_room.py] *)

(** [Button(label, id=.., classes=..)] with the attributes the handlers
    touch *)
Record Button := mkButton {
  button_id : string;
  button_label : string;
  button_classes : string;
  button_disabled : bool
}.

#[warnings="-register-all"]
Inductive Widget :=
| Header
| Footer
| Log (id : string)
| Static (text classes : string)
| ButtonWidget (b : Button)
| Horizontal (id : string) (children : list Widget)
| Grid (id : string) (children : list Widget).

(** [compose()]: the widgets in the order they are yielded, each container
    with what is yielded inside its [with] block *)
Definition compose : list Widget :=
  [Header;
   Horizontal "main-content"
     [Grid "game-grid"
        (map (fun coord => ButtonWidget (mkButton coord coord "" false))
             all_coords);
      Grid "scanner-grid"
        ([Static "ROWS" "scanner-header"]
         ++ map (fun r => ButtonWidget
                   (mkButton ("scan-row-" +:+ r) ("Scan Row " +:+ r)
                             "scanner-button" false))
                (str_iter ROWS)
         ++ [Static "COLS" "scanner-header"]
         ++ map (fun c => ButtonWidget
                   (mkButton ("scan-col-" +:+ c) ("Scan Col " +:+ c)
                             "scanner-button" false))
                (str_iter COLS))];
   Log "command-log";
   Footer].

Fixpoint buttons_of (w : Widget) : list Button :=
  match w with
  | ButtonWidget b => [b]
  | Horizontal _ ws | Grid _ ws => flat_map buttons_of ws
  | _ => []
  end.

(** [button.set_classes(c)], [button.label = l], [button.disabled = d] *)
Definition set_classes (b : Button) (c : string) : Button :=
  mkButton (button_id b) (button_label b) c (button_disabled b).
Definition set_label (b : Button) (l : string) : Button :=
  mkButton (button_id b) l (button_classes b) (button_disabled b).
Definition set_disabled (b : Button) (d : bool) : Button :=
  mkButton (button_id b) (button_label b) (button_classes b) d.

(** [log.write_line(s)].  The log is modelled as the sequence of the
    strings written to it, one entry for each call of [write_line], in the
    order of the calls.  How the widget lays an entry out is not modelled:
    it breaks an entry at its newlines, so that an entry which begins with
    a newline is shown as an empty line followed by a line of text. *)
Definition write_line (log : list string) (s : string) : list string :=
  log ++ [s].

(** the newline of ["\n"] *)
Definition nl : string := String "010"%char EmptyString.

(** [str(i)] and [str(l)] for a list of booleans *)
Definition str_int (i : Z) : string := pretty i.
Definition str_bool (b : bool) : string := if b then "True" else "False".
Definition str_list (l : list bool) : string :=
  "[" +:+ String.concat ", " (map str_bool l) +:+ "]".

Section WarRoom.

Variable transpile_pass : QuantumCircuit -> QuantumCircuit.
Variable GAME_BOARD : gmap string bool.

(** [handle_single_ping(event)], on the log and the button of the event;
    the value is the log and the button afterwards.  The log and the
    button are returned as values: of a handler that raises, the model
    says which exception it raises and in which world, and not which
    entries it had written before. *)
Definition handle_single_ping (log : list string) (button : Button)
  : Py (list string * Button) :=
  let button_id := button_id button in
  let is_ship := default false (GAME_BOARD !! button_id) in
  let log := write_line log
    (nl +:+ ">>> [SINGLE PING] COMMAND: PINGING SECTOR " +:+ button_id +:+ "...") in
  '(measurement, _) ← run_quantum_sonar_ping transpile_pass is_ship;
  if decide (measurement = 1%Z) then
    let log := write_line log
      ("    >>> ANALYSIS: **SHIP DETECTED AT " +:+ button_id +:+ "!** <<<") in
    let button := set_classes button "sector-ship" in
    let button := set_label button "SHIP" in
    mret (log, set_disabled button true)
  else
    let log := write_line log
      ("    ...ANALYSIS: Sector " +:+ button_id +:+ " is clear.") in
    let button := set_classes button "sector-clear" in
    mret (log, set_disabled button true).

(** [handle_scanner_press(event)].  The command is written to the log
    before the board is read; when a cell of the line is missing from the
    board the lookup raises [KeyError], and the entry written before is,
    as said above, not part of what the model reports. *)
Definition handle_scanner_press (log : list string) (button : Button)
  : Py (list string * Button) :=
  let button_id := button_id button in
  let log := write_line log
    (nl +:+ ">>> [ADVANCED COUNTING SCAN] COMMAND: " +:+ button_label button
        +:+ "...") in
  targets_to_scan ←
    (if String.prefix "scan-row-" button_id then
       row ← str_last button_id;
       list_comp (fun c => dict_getitem GAME_BOARD (row +:+ c))
                 (fun _ => true) (str_iter COLS)
     else if String.prefix "scan-col-" button_id then
       col ← str_last button_id;
       list_comp (fun r => dict_getitem GAME_BOARD (r +:+ col))
                 (fun _ => true) (str_iter ROWS)
     else mret []);
  let log := write_line log
    ("    ...Target list: " +:+ str_list targets_to_scan) in
  '(count, _) ← run_quantum_counting_scan transpile_pass targets_to_scan;
  let log :=
    if decide (0 < count)%Z then
      write_line log
        ("    >>> ANALYSIS: **" +:+ str_int count +:+ " SHIP(S) DETECTED IN "
           +:+ button_label button +:+ "!**")
    else
      write_line log
        ("    ...ANALYSIS: " +:+ button_label button +:+ " is ALL CLEAR.") in
  let button := set_classes button "scanner-used" in
  let button := set_label button ("SHIPS: " +:+ str_int count) in
  mret (log, set_disabled button true).

(** [on_button_pressed(event)] *)
Definition on_button_pressed (log : list string) (button : Button)
  : Py (list string * Button) :=
  let button_id := button_id button in
  if String.prefix "scan-row-" button_id || String.prefix "scan-col-" button_id
  then handle_scanner_press log button
  else if String.length button_id =? 2
  then handle_single_ping log button
  else mret (log, button).

(** [on_mount()]: the boot check, on the log *)
Definition on_mount (log : list string) : Py (list string) :=
  let log := write_line log " QUANTUM SONAR SYSTEM BOOT CHECK " in
  '(result_water, _) ← run_quantum_sonar_ping transpile_pass false;
  let log := write_line log
    ("   [TEST 1] SINGLE PING (WATER): " +:+ str_int result_water
       +:+ " (EXPECT 0)") in
  '(result_ship, _) ← run_quantum_sonar_ping transpile_pass true;
  let log := write_line log
    ("   [TEST 2] SINGLE PING (SHIP): " +:+ str_int result_ship
       +:+ " (EXPECT 1)") in
  let test_targets := [false; true; false; true] in
  '(count, _) ← run_quantum_counting_scan transpile_pass test_targets;
  let log := write_line log
    ("   [TEST 3] COUNTING SCAN (2 SHIPS): " +:+ str_int count
       +:+ " (EXPECT 2)") in
  let test_targets_3 := [true; true; true; false] in
  '(count_3, _) ← run_quantum_counting_scan transpile_pass test_targets_3;
  let log := write_line log
    ("   [TEST 4] COUNTING SCAN (3 SHIPS): " +:+ str_int count_3
       +:+ " (EXPECT 3)") in
  let log := write_line log (nl +:+ " ENGINE STATUS: NOMINAL (ALL SYSTEMS) ") in
  let log := write_line log
    (" " +:+ str_int (Z.of_nat SHIP_COUNT) +:+ " ENEMY SIGNATURES PLACED ON GRID ") in
  let log := write_line log " AWAITING COMMANDS" in
  mret log.

End WarRoom.

(* ================================================================== *)
(** * Part II: the vocabulary of the statements *)

(** A transpiler pass is sound when it keeps the set of possible
    measurement strings. *)
Definition same_outcomes (o1 o2 : option (list string)) : Prop :=
  match o1, o2 with
  | Some l1, Some l2 => forall s, In s l1 <-> In s l2
  | None, None => True
  | _, _ => False
  end.

Definition sound (transpile_pass : QuantumCircuit -> QuantumCircuit) : Prop :=
  forall c, same_outcomes (outcomes (transpile_pass c)) (outcomes c).

(** The engine call returns the value [v], with some reference. *)
Definition returns {A} (m : Py (A * ref)) (w : World) (v : A) : Prop :=
  exists r w', run m w = Return (v, r) w'.

(** The value that an engine call returns, if it returns. *)
Definition returned {A} (o : Outcome (A * ref)) : option A :=
  match o with
  | Return a _ => Some a.1
  | Raise _ _ => None
  end.

(** The circuit behind the reference that a builder returns. *)
Definition built (m : Py ref) (w : World) : option QuantumCircuit :=
  match run m w with
  | Return r w' => heap w' !! r
  | Raise _ _ => None
  end.

(** What a caller observes of an engine call: the value returned and the
    circuit behind the returned reference, or the exception raised. *)
Definition observe (o : Outcome (Z * ref))
  : Z * option QuantumCircuit + Exception :=
  match o with
  | Return a w => inl (a.1, heap w !! a.2)
  | Raise e _ => inr e
  end.

(** The call left every object that existed before it as it was. *)
Definition preserves {A} (w : World) (o : Outcome A) : Prop :=
  let w' := match o with Return _ w' => w' | Raise _ w' => w' end in
  take (length (heap w)) (heap w') = heap w.

(** [extends nq nc r m gs]: on a circuit object of [nq] qubits and [nc]
    clbits behind [r], the command [m] appends the instructions [gs] and
    does nothing else. *)
Definition extends (nq nc : nat) (r : ref) (m : Py unit)
    (gs : list Instruction) : Prop :=
  forall w d,
    heap w !! r = Some (mkQC nq nc d) ->
    run m w = Return tt (set_heap w (<[r := mkQC nq nc (d ++ gs)]> (heap w))).

(** the number of true entries *)
Definition count_true (targets : list bool) : Z :=
  Z.of_nat (count_occ Bool.bool_dec targets true).

(* ------------------------------------------------------------------ *)
(** ** The inverse Fourier gate list, in the words of the specification *)

(** [n-1, n-2, ..., 0] *)
Fixpoint countdown (n : nat) : list nat :=
  match n with
  | O => []
  | S k => k :: countdown k
  end.

(** [hi-1, hi-2, ..., lo] *)
Definition countdown_to (hi lo : nat) : list nat :=
  map (fun d => lo + d) (countdown (hi - lo)).

Definition iqft_swaps (n : nat) : list Instruction :=
  map (fun i => SwapGate i (n - 1 - i)) (seq 0 (n / 2)).

Definition iqft_row (n i : nat) : list Instruction :=
  map (fun j => CPhaseGate (mkAngle (-1) (j - i)) j i) (countdown_to n (i + 1))
  ++ [HGate i].

Definition iqft_rotations (n : nat) : list Instruction :=
  flat_map (iqft_row n) (countdown n).

Definition iqft_spec (n : nat) : list Instruction :=
  iqft_swaps n ++ iqft_rotations n.

Definition is_measure (g : Instruction) : bool :=
  match g with Measure _ _ => true | _ => false end.
Definition is_swap (g : Instruction) : bool :=
  match g with SwapGate _ _ => true | _ => false end.
Definition is_cphase (g : Instruction) : bool :=
  match g with CPhaseGate _ _ _ => true | _ => false end.
Definition is_hadamard (g : Instruction) : bool :=
  match g with HGate _ => true | _ => false end.

Definition count (p : Instruction -> bool) (gs : list Instruction) : nat :=
  length (List.filter p gs).

(* ------------------------------------------------------------------ *)
(** ** The circuits of the two engines, in closed form *)

Definition ping_gates (target_is_ship : bool) : list Instruction :=
  (if target_is_ship then [XGate 1] else []) ++
  [Barrier; HGate 0; HGate 1; CXGate 0 1; HGate 1; HGate 0; Barrier;
   Measure 0 0].

Definition ping_circuit (target_is_ship : bool) : QuantumCircuit :=
  mkQC 2 1 (ping_gates target_is_ship).

(** [[target_register[i] for i, is_ship in enumerate(targets) if is_ship]]
    with [target_register = [3, 4, 5, 6]], counting positions from [k];
    [None] when a marked position has no target qubit. *)
Fixpoint ship_indices_from (k : nat) (targets : list bool) : option (list nat) :=
  match targets with
  | [] => Some []
  | true :: rest =>
      if k <? 4 then cons (3 + k) <$> ship_indices_from (S k) rest else None
  | false :: rest => ship_indices_from (S k) rest
  end.

Definition kickback_angle (c : nat) : Angle :=
  angle_mul (2 ^ Z.of_nat (3 - 1 - c)) (angle_div np_pi 4).

Definition kickback_gates (ship_indices : list nat) : list Instruction :=
  flat_map (fun c => map (fun t => CPhaseGate (kickback_angle c) c t) ship_indices)
           [0; 1; 2].

Definition scan_gates (ship_indices : list nat) : list Instruction :=
  map XGate ship_indices ++
  [HGate 0; HGate 1; HGate 2] ++
  kickback_gates ship_indices ++
  [Barrier] ++
  map (remap [0; 1; 2]) (iqft_spec 3) ++
  [Barrier] ++
  [Measure 0 0; Measure 1 1; Measure 2 2].

Definition scan_circuit (ship_indices : list nat) : QuantumCircuit :=
  mkQC 7 3 (scan_gates ship_indices).

(** The measurement string of the counting register when [m] targets are
    marked: the binary digits of [m], lowest first. *)
Definition scan_string (m : nat) : string :=
  bits_to_string [Nat.testbit m 0; Nat.testbit m 1; Nat.testbit m 2].

(** all strings of [n] binary digits *)
Fixpoint bitstrings (n : nat) : list string :=
  match n with
  | O => [EmptyString]
  | S k => flat_map (fun s => [String "0" s; String "1" s]) (bitstrings k)
  end.

(* ------------------------------------------------------------------ *)
(** ** Sample worlds and a sample board *)

Definition world0 : World := mkWorld [] (fun _ => 0).

Definition world1 : World := mkWorld [mkQC 1 0 [HGate 0]] (fun i => 7 * i + 3).

Definition board0 : gmap string bool :=
  list_to_map [("A1", true); ("A2", false); ("A3", true); ("A4", false);
               ("B1", false); ("B2", false); ("B3", false); ("B4", false);
               ("C1", false); ("C2", true); ("C3", false); ("C4", false);
               ("D1", false); ("D2", false); ("D3", false); ("D4", true)].

(* ------------------------------------------------------------------ *)
(** ** Vocabulary for the handlers and the decoding *)

(** A circuit on three qubits and three clbits whose only measurement
    string is that of the bits [a], [b], [c], in the order of the string:
    qubit 2 is flipped when [a] holds, qubit 1 when [b] holds, qubit 0 when
    [c] holds, and every qubit is measured into the clbit of its index.  A
    transpiler replaced by [fun _ => emits a b c] makes the backend hand
    this string to the engine. *)
Definition emits (a b c : bool) : QuantumCircuit :=
  mkQC 3 3 ((if c then [XGate 0] else []) ++
            (if b then [XGate 1] else []) ++
            (if a then [XGate 2] else []) ++
            [Measure 0 0; Measure 1 1; Measure 2 2]).

(** the [result] that [handle_ping] answers for the cell [id], and the
    [count] that [handle_scan] answers for the scan [id]; [None] when the
    handler answers something else or raises *)
Definition ping_value (tp : QuantumCircuit -> QuantumCircuit)
    (board : gmap string bool) (id : string) (w : World) : option Z :=
  match run (handle_ping tp board {["id" := id]}) w with
  | Return (JsonPing _ v) _ => Some v
  | _ => None
  end.

Definition scan_value (tp : QuantumCircuit -> QuantumCircuit)
    (board : gmap string bool) (id : string) (w : World) : option Z :=
  match run (handle_scan tp board {["id" := id]}) w with
  | Return (JsonScan _ n) _ => Some n
  | _ => None
  end.

Definition sum_Z (l : list Z) : Z := foldr Z.add 0%Z l.

(** the id of the scan of a line, and the ids of its four cells: row [x]
    when [row] holds, column [x] otherwise *)
Definition scan_prefix (row : bool) : string :=
  if row then "scan-row-" else "scan-col-".

Definition line_cells (row : bool) (x : string) : list string :=
  if row then map (fun c => x +:+ c) (str_iter COLS)
  else map (fun r => r +:+ x) (str_iter ROWS).

(* ================================================================== *)
(** * Part III: lemmas and theorems *)

(* ------------------------------------------------------------------ *)
(** ** Running commands *)

Lemma run_bind {A B} (m : Py A) (k : A -> Py B) w :
  run (m ≫= k) w =
  match run m w with
  | Return a w' => run (k a) w'
  | Raise e w' => Raise e w'
  end.
Proof. reflexivity. Qed.

Lemma run_bind_Return {A B} (m : Py A) (k : A -> Py B) w a w' :
  run m w = Return a w' -> run (m ≫= k) w = run (k a) w'.
Proof. intros H. rewrite run_bind, H. reflexivity. Qed.

Lemma run_bind_Raise {A B} (m : Py A) (k : A -> Py B) w e w' :
  run m w = Raise e w' -> run (m ≫= k) w = Raise e w'.
Proof. intros H. rewrite run_bind, H. reflexivity. Qed.

Lemma run_mret {A} (a : A) w : run (mret a) w = Return a w.
Proof. reflexivity. Qed.

Lemma set_heap_id w : set_heap w (heap w) = w.
Proof. destruct w; reflexivity. Qed.

Lemma set_heap_set_heap w h1 h2 : set_heap (set_heap w h1) h2 = set_heap w h2.
Proof. reflexivity. Qed.

Lemma heap_set_heap w h : heap (set_heap w h) = h.
Proof. reflexivity. Qed.

Section Extends.
Variables (nq nc : nat) (r : ref).

Lemma extends_instr g :
  valid_instr nq nc g = true -> extends nq nc r (append_instr r g) [g].
Proof.
  intros Hv w d Hr. unfold append_instr.
  rewrite run_bind. cbn [deref run]. rewrite Hr. cbn [num_qubits num_clbits data].
  rewrite Hv. reflexivity.
Qed.

Lemma extends_skip : extends nq nc r (mret tt) [].
Proof.
  intros w d Hr. rewrite run_mret, app_nil_r, list_insert_id by exact Hr.
  rewrite set_heap_id. reflexivity.
Qed.

Lemma extends_seq m1 m2 g1 g2 :
  extends nq nc r m1 g1 -> extends nq nc r m2 g2 ->
  extends nq nc r (m1 ;; m2) (g1 ++ g2).
Proof.
  intros H1 H2 w d Hr.
  rewrite (run_bind_Return _ _ _ _ _ (H1 w d Hr)).
  rewrite (H2 _ (d ++ g1)).
  - rewrite set_heap_set_heap, heap_set_heap, list_insert_insert_eq, app_assoc.
    reflexivity.
  - rewrite heap_set_heap. apply list_lookup_insert_eq.
    eapply lookup_lt_Some, Hr.
Qed.

Lemma extends_for {A} (l : list A) (body : A -> Py unit)
    (G : A -> list Instruction) :
  (forall x, In x l -> extends nq nc r (body x) (G x)) ->
  extends nq nc r (for_ l body) (flat_map G l).
Proof.
  induction l as [|x l IH]; intros HG; cbn [for_ flat_map].
  - apply extends_skip.
  - apply extends_seq.
    + apply HG. left; reflexivity.
    + apply IH. intros y Hy. apply HG. right; exact Hy.
Qed.

Lemma extends_for_instr {A} (l : list A) (g : A -> Instruction) :
  (forall x, In x l -> valid_instr nq nc (g x) = true) ->
  extends nq nc r (for_ l (fun x => append_instr r (g x))) (map g l).
Proof.
  intros Hv.
  replace (map g l) with (flat_map (fun x => [g x]) l)
    by (clear Hv; induction l as [|y l' IHl]; simpl; [reflexivity | now rewrite IHl]).
  apply extends_for. intros x Hx. apply extends_instr, Hv, Hx.
Qed.

End Extends.

(* ------------------------------------------------------------------ *)
(** ** Fresh objects sit at the end of the heap *)

Lemma lookup_fresh (h : list QuantumCircuit) c l :
  (h ++ c :: l) !! length h = Some c.
Proof. apply list_lookup_middle. reflexivity. Qed.

Lemma insert_fresh (h : list QuantumCircuit) c l x :
  <[length h := x]> (h ++ c :: l) = h ++ x :: l.
Proof.
  rewrite insert_app_r_alt by lia. rewrite Nat.sub_diag. reflexivity.
Qed.

Lemma run_alloc c w :
  run (alloc c) w = Return (length (heap w)) (set_heap w (heap w ++ [c])).
Proof. reflexivity. Qed.

Lemma run_deref r w c :
  heap w !! r = Some c -> run (deref r) w = Return c w.
Proof. intros H. cbn [deref run]. rewrite H. reflexivity. Qed.

(* ------------------------------------------------------------------ *)
(** ** The inverse Fourier builder *)

Lemma rev_seq_countdown a k : rev (seq a k) = map (fun d => a + d) (countdown k).
Proof.
  induction k as [|k IH]; [reflexivity|].
  rewrite seq_S, rev_app_distr. cbn [rev app countdown map].
  rewrite IH. reflexivity.
Qed.

Lemma reversed_range_0 n : reversed (range 0 n) = countdown n.
Proof.
  unfold reversed, range. rewrite rev_seq_countdown, Nat.sub_0_r.
  rewrite <- (map_id (countdown n)) at 2. reflexivity.
Qed.

Lemma reversed_range lo hi : reversed (range lo hi) = countdown_to hi lo.
Proof. unfold reversed, range, countdown_to. apply rev_seq_countdown. Qed.

Lemma In_countdown n i : In i (countdown n) <-> i < n.
Proof.
  induction n as [|n IH]; cbn [countdown In]; [lia|]. rewrite IH. lia.
Qed.

Lemma In_countdown_to hi lo j : In j (countdown_to hi lo) <-> lo <= j < hi.
Proof.
  unfold countdown_to. rewrite in_map_iff. split.
  - intros (d & <- & Hd). apply In_countdown in Hd. lia.
  - intros Hj. exists (j - lo). rewrite In_countdown. lia.
Qed.

Lemma angle_minus_pi_over_pow2 k :
  angle_div (angle_neg np_pi) (2 ^ Z.of_nat k) = mkAngle (-1) k.
Proof.
  unfold angle_div, angle_neg, np_pi. cbn [a_num a_exp Nat.add].
  rewrite Z.log2_pow2 by lia. rewrite Nat2Z.id.
  destruct k; reflexivity.
Qed.

Lemma half_bound n i : i < n / 2 -> 2 * i + 2 <= n.
Proof.
  intros H. pose proof (Nat.Div0.mul_div_le n 2). lia.
Qed.

Lemma swap_qubits_run n nc r w d :
  heap w !! r = Some (mkQC n nc d) ->
  run (swap_qubits r n) w =
  Return r (set_heap w (<[r := mkQC n nc (d ++ iqft_swaps n)]> (heap w))).
Proof.
  intros Hr. unfold swap_qubits.
  assert (E : extends n nc r
                (for_ (range 0 (n / 2)) (fun i => qc_swap r i (n - i - 1)))
                (iqft_swaps n)).
  { unfold iqft_swaps, range, qc_swap. rewrite Nat.sub_0_r.
    erewrite map_ext_in.
    - apply extends_for_instr with (g := fun i => SwapGate i (n - i - 1)).
      intros i Hi. apply in_seq in Hi. cbn [valid_instr].
      assert (2 * i + 2 <= n) by (apply half_bound; lia).
      repeat (apply andb_true_intro; split);
        [apply Nat.ltb_lt; lia | apply Nat.ltb_lt; lia |].
      apply negb_true_iff, Nat.eqb_neq. lia.
    - intros i _. cbn beta. f_equal. lia. }
  rewrite (run_bind_Return _ _ _ _ _ (E w d Hr)). reflexivity.
Qed.

Lemma float_max_int_bounds :
  (2 ^ 1023 < float_max_int)%Z /\ (float_max_int <= 2 ^ 1024)%Z.
Proof.
  unfold float_max_int. split.
  - apply Z.ltb_lt. vm_compute. reflexivity.
  - apply Z.leb_le. vm_compute. reflexivity.
Qed.

(** A power of two below [2^1024] converts to a float. *)
Lemma float_div_run a k w :
  k < 1024 ->
  run (float_div a (2 ^ Z.of_nat k)) w = Return (angle_div a (2 ^ Z.of_nat k)) w.
Proof.
  intros Hk. unfold float_div.
  destruct (Z.leb_spec float_max_int (2 ^ Z.of_nat k)) as [H|H]; [|reflexivity].
  exfalso.
  assert (H1 : (2 ^ Z.of_nat k <= 2 ^ 1023)%Z) by (apply Z.pow_le_mono_r; lia).
  apply (Z.lt_irrefl float_max_int).
  eapply Z.le_lt_trans; [exact H|].
  eapply Z.le_lt_trans; [exact H1|]. apply float_max_int_bounds.
Qed.

(** [2^1024] and the powers of two above it do not. *)
Lemma float_div_overflow a k w :
  1024 <= k ->
  run (float_div a (2 ^ Z.of_nat k)) w = Raise OverflowError w.
Proof.
  intros Hk. unfold float_div.
  destruct (Z.leb_spec float_max_int (2 ^ Z.of_nat k)) as [H|H]; [reflexivity|].
  exfalso.
  assert (H1 : (2 ^ 1024 <= 2 ^ Z.of_nat k)%Z) by (apply Z.pow_le_mono_r; lia).
  apply (Z.lt_irrefl float_max_int).
  eapply Z.le_lt_trans; [apply float_max_int_bounds|].
  eapply Z.le_lt_trans; [exact H1|exact H].
Qed.

Lemma flat_map_singleton {A B} (g : A -> B) (l : list A) :
  flat_map (fun x => [g x]) l = map g l.
Proof. induction l as [|x l IH]; simpl; [reflexivity | now rewrite IH]. Qed.

(** One pass of the outer loop, for a target qubit [i] whose rotations all
    have a divisor within the float range. *)
Lemma iqft_row_extends n r i :
  i < n -> n - i <= 1024 ->
  extends n 0 r
    (for_ (reversed (range (i + 1) n)) (fun j =>
       angle ← float_div (angle_neg np_pi) (2 ^ Z.of_nat (j - i));
       qc_cp r angle j i) ;;
     qc_h r i)
    (iqft_row n i).
Proof.
  intros Hi Hn. unfold iqft_row. apply extends_seq.
  - rewrite reversed_range, <- flat_map_singleton.
    apply extends_for. intros j Hj. apply In_countdown_to in Hj.
    intros w d Hr.
    rewrite (run_bind_Return _ _ _ _ _
               (float_div_run (angle_neg np_pi) (j - i) w ltac:(lia))).
    rewrite angle_minus_pi_over_pow2.
    apply extends_instr; [|exact Hr]. cbn [valid_instr].
    repeat (apply andb_true_intro; split);
      [apply Nat.ltb_lt; lia | apply Nat.ltb_lt; lia |].
    apply negb_true_iff, Nat.eqb_neq. lia.
  - apply extends_instr. cbn [valid_instr]. apply Nat.ltb_lt. lia.
Qed.

Lemma iqft_loop_extends n r :
  n <= 1024 ->
  extends n 0 r
    (for_ (reversed (range 0 n)) (fun i =>
       for_ (reversed (range (i + 1) n)) (fun j =>
         angle ← float_div (angle_neg np_pi) (2 ^ Z.of_nat (j - i));
         qc_cp r angle j i) ;;
       qc_h r i))
    (iqft_rotations n).
Proof.
  intros Hn. rewrite reversed_range_0. unfold iqft_rotations.
  apply extends_for. intros i Hi. apply In_countdown in Hi.
  apply iqft_row_extends; lia.
Qed.

(** Within the float range the builder allocates one new circuit object,
    fills it with the gate list of the specification and returns it. *)
Lemma iqft_gate_run n w :
  n <= 1024 ->
  run (iqft_gate n) w =
  Return (length (heap w))
         (set_heap w (heap w ++ [mkQC n 0 (iqft_spec n)])).
Proof.
  intros Hn. unfold iqft_gate, new_QuantumCircuit.
  rewrite (run_bind_Return _ _ _ _ _ (run_alloc _ w)).
  erewrite run_bind_Return.
  2:{ apply swap_qubits_run with (nc := 0) (d := []).
      rewrite heap_set_heap. apply lookup_fresh. }
  rewrite heap_set_heap, set_heap_set_heap, insert_fresh. cbn [app].
  erewrite run_bind_Return.
  2:{ apply (iqft_loop_extends n _ Hn). rewrite heap_set_heap. apply lookup_fresh. }
  rewrite heap_set_heap, set_heap_set_heap, insert_fresh.
  reflexivity.
Qed.

Lemma countdown_add m k :
  countdown (m + k) = countdown_to (m + k) m ++ countdown m.
Proof.
  unfold countdown_to. replace (m + k - m) with k by lia.
  induction k as [|k IH].
  - rewrite Nat.add_0_r. reflexivity.
  - rewrite Nat.add_succ_r. cbn [countdown map app]. rewrite IH. reflexivity.
Qed.

Lemma run_for_app {A} (l1 l2 : list A) (body : A -> Py unit) w :
  run (for_ (l1 ++ l2) body) w =
  match run (for_ l1 body) w with
  | Return _ w' => run (for_ l2 body) w'
  | Raise e w' => Raise e w'
  end.
Proof.
  revert w. induction l1 as [|x l1 IH]; intros w; cbn [app for_].
  - reflexivity.
  - rewrite !run_bind.
    destruct (run (body x) w) as [[] w'|e w']; [apply IH | reflexivity].
Qed.

(** Beyond the float range: for [n >= 1025] the rows of the target qubits
    [n-1, ..., n-1024] are appended, and the first rotation of the next row,
    between the qubits [n-1] and [n-1025], divides by [2**1024].  The
    builder raises [OverflowError]; the object it was filling is left
    behind, unreachable. *)
Lemma iqft_gate_overflow n w :
  1025 <= n ->
  run (iqft_gate n) w =
  Raise OverflowError
    (set_heap w
       (heap w ++
        [mkQC n 0 (iqft_swaps n ++
                   flat_map (iqft_row n) (countdown_to n (n - 1024)))])).
Proof.
  intros Hn. unfold iqft_gate, new_QuantumCircuit.
  rewrite (run_bind_Return _ _ _ _ _ (run_alloc _ w)).
  erewrite run_bind_Return.
  2:{ apply swap_qubits_run with (nc := 0) (d := []).
      rewrite heap_set_heap. apply lookup_fresh. }
  rewrite heap_set_heap, set_heap_set_heap, insert_fresh. cbn [app].
  apply run_bind_Raise.
  rewrite reversed_range_0.
  assert (E : countdown n =
              countdown_to n (n - 1024) ++ (n - 1025) :: countdown (n - 1025)).
  { replace n with ((n - 1024) + 1024) at 1 2 by lia.
    rewrite countdown_add.
    replace (n - 1024 + 1024 - 1024) with (n - 1024) by lia.
    replace (n - 1024) with (S (n - 1025)) at 3 by lia. reflexivity. }
  rewrite E, run_for_app.
  assert (X : extends n 0 (length (heap w))
                (for_ (countdown_to n (n - 1024)) (fun i =>
                   for_ (reversed (range (i + 1) n)) (fun j =>
                     angle ← float_div (angle_neg np_pi) (2 ^ Z.of_nat (j - i));
                     qc_cp (length (heap w)) angle j i) ;;
                   qc_h (length (heap w)) i))
                (flat_map (iqft_row n) (countdown_to n (n - 1024)))).
  { apply extends_for. intros i Hi. apply In_countdown_to in Hi.
    apply iqft_row_extends; lia. }
  rewrite (X _ (iqft_swaps n))
    by (rewrite heap_set_heap; apply lookup_fresh).
  rewrite heap_set_heap, set_heap_set_heap, insert_fresh.
  cbn [for_]. apply run_bind_Raise, run_bind_Raise.
  rewrite reversed_range.
  assert (E2 : countdown_to n (n - 1025 + 1) =
               (n - 1) :: countdown_to (n - 1) (n - 1025 + 1)).
  { unfold countdown_to.
    replace (n - (n - 1025 + 1)) with (S (n - 1 - (n - 1025 + 1))) by lia.
    cbn [countdown map]. f_equal. lia. }
  rewrite E2. cbn [for_]. apply run_bind_Raise, run_bind_Raise.
  apply float_div_overflow. lia.
Qed.

(* ------------------------------------------------------------------ *)
(** ** One shot of a circuit with a single possible outcome *)

Lemma step_extends {B} nq nc (h : list QuantumCircuit) d l ent m gs
    (k : unit -> Py B) :
  extends nq nc (length h) m gs ->
  run (m ≫= k) (mkWorld (h ++ mkQC nq nc d :: l) ent) =
  run (k tt) (mkWorld (h ++ mkQC nq nc (d ++ gs) :: l) ent).
Proof.
  intros E. erewrite run_bind_Return.
  2:{ apply E. cbn [heap]. apply lookup_fresh. }
  unfold set_heap. cbn [heap entropy]. rewrite insert_fresh. reflexivity.
Qed.

Lemma draw_singleton (l : list string) s tape :
  (forall x, In x l <-> In x [s]) -> draw l 1 tape = [s].
Proof.
  intros H. cbn [draw]. f_equal.
  assert (Hl : length l <> 0).
  { destruct l; [|discriminate]. exfalso. apply (proj2 (H s)). left; reflexivity. }
  assert (Hin : In (nth (tape 0 mod length l) l EmptyString) l).
  { apply nth_In. apply Nat.mod_upper_bound. exact Hl. }
  apply H in Hin. destruct Hin as [<- | []]. reflexivity.
Qed.

(** Transpiling, running one shot and decoding the only key of the
    counts, when the transpiled circuit has a single possible outcome [s],
    whatever the transpiler is. *)
Lemma run_shot_outs (transpile_pass : QuantumCircuit -> QuantumCircuit)
    (decode : string -> Py Z) (h : list QuantumCircuit) c l ent outs s :
  outcomes (transpile_pass c) = Some outs ->
  (forall x, In x outs <-> In x [s]) ->
  run (transpiled_qc ← transpile transpile_pass (length h);
       result ← simulator_run transpiled_qc 1;
       let counts := get_counts result in
       key ← getitem (keys counts) 0;
       v ← decode key;
       mret (v, transpiled_qc))
      (mkWorld (h ++ c :: l) ent) =
  run (v ← decode s; mret (v, length (h ++ c :: l)))
      (mkWorld ((h ++ c :: l) ++ [transpile_pass c]) (fun i => ent (1 + i))).
Proof.
  intros Ho Hs. unfold transpile.
  rewrite run_bind.
  rewrite (run_bind_Return (deref (length h)) _ _ c (mkWorld (h ++ c :: l) ent))
    by (apply run_deref, lookup_fresh).
  rewrite run_alloc. unfold set_heap. cbn [heap entropy].
  unfold simulator_run. rewrite run_bind.
  rewrite (run_bind_Return (deref _) _ _ (transpile_pass c)
             (mkWorld ((h ++ c :: l) ++ [transpile_pass c]) ent)).
  2:{ apply run_deref. cbn [heap]. rewrite lookup_app_r by lia.
      rewrite Nat.sub_diag. reflexivity. }
  rewrite Ho. cbn [run heap entropy].
  rewrite (draw_singleton outs s ent Hs).
  reflexivity.
Qed.

Section Backend.
Variable transpile_pass : QuantumCircuit -> QuantumCircuit.
Hypothesis transpile_sound :
  forall c, same_outcomes (outcomes (transpile_pass c)) (outcomes c).

(** The same with a sound transpiler, for a circuit with a single possible
    outcome [s]. *)
Lemma run_shot (decode : string -> Py Z) (h : list QuantumCircuit) c l ent s :
  outcomes c = Some [s] ->
  run (transpiled_qc ← transpile transpile_pass (length h);
       result ← simulator_run transpiled_qc 1;
       let counts := get_counts result in
       key ← getitem (keys counts) 0;
       v ← decode key;
       mret (v, transpiled_qc))
      (mkWorld (h ++ c :: l) ent) =
  run (v ← decode s; mret (v, length (h ++ c :: l)))
      (mkWorld ((h ++ c :: l) ++ [transpile_pass c]) (fun i => ent (1 + i))).
Proof.
  intros Hc.
  pose proof (transpile_sound c) as Hs. rewrite Hc in Hs.
  destruct (outcomes (transpile_pass c)) as [outs|] eqn:Ho; [|destruct Hs].
  cbn [same_outcomes] in Hs.
  exact (run_shot_outs transpile_pass decode h c l ent outs s Ho Hs).
Qed.

End Backend.

(* ------------------------------------------------------------------ *)
(** ** The sonar ping *)

Ltac extend_step :=
  erewrite step_extends;
  [| first [ apply extends_instr; reflexivity
           | apply extends_skip ] ].

Section Ping.
Variable transpile_pass : QuantumCircuit -> QuantumCircuit.
Hypothesis transpile_sound :
  forall c, same_outcomes (outcomes (transpile_pass c)) (outcomes c).

Lemma ping_outcomes t :
  outcomes (ping_circuit t) = Some [if t then "1" else "0"].
Proof. destruct t; vm_compute; reflexivity. Qed.

Lemma ping_run t w :
  run (run_quantum_sonar_ping transpile_pass t) w =
  Return ((if t then 1 else 0)%Z, S (length (heap w)))
         (mkWorld (heap w ++ [ping_circuit t; transpile_pass (ping_circuit t)])
                  (fun i => entropy w (1 + i))).
Proof.
  destruct w as [h ent]. unfold run_quantum_sonar_ping, new_QuantumCircuit.
  cbn zeta. rewrite (run_bind_Return _ _ _ _ _ (run_alloc _ _)).
  unfold set_heap. cbn [heap entropy].
  unfold qc_x, qc_h, qc_cx, qc_barrier, qc_measure.
  erewrite step_extends
    with (gs := if t then [XGate 1] else []);
    [| destruct t; [apply extends_instr; reflexivity | apply extends_skip] ].
  do 8 extend_step.
  rewrite (run_shot transpile_pass transpile_sound (fun key => int key 10)
             h _ [] ent (if t then "1" else "0")).
  - rewrite <- (app_assoc h), length_app, Nat.add_1_r.
    destruct t; reflexivity.
  - rewrite <- (ping_outcomes t). destruct t; reflexivity.
Qed.

End Ping.

(* ------------------------------------------------------------------ *)
(** ** The counting scan *)

Lemma list_comp_ship k targets w :
  run (list_comp (fun e : nat * bool => getitem (range 3 (3 + 4)) e.1)
                 (fun e => e.2)
                 (combine (seq k (length targets)) targets)) w =
  match ship_indices_from k targets with
  | Some si => Return si w
  | None => Raise IndexError w
  end.
Proof.
  revert k. induction targets as [|b rest IH]; intros k; [reflexivity|].
  cbn [length seq combine list_comp ship_indices_from snd fst].
  destruct b.
  - rewrite run_bind.
    destruct (k <? 4) eqn:Hk.
    + apply Nat.ltb_lt in Hk.
      assert (Hg : forall w', run (getitem (range 3 (3 + 4)) k) w' = Return (3 + k) w').
      { intros w'. do 4 (destruct k as [|k]; [reflexivity|]). lia. }
      rewrite Hg, run_bind, IH.
      destruct (ship_indices_from (S k) rest); reflexivity.
    + apply Nat.ltb_ge in Hk.
      assert (Hg : run (getitem (range 3 (3 + 4)) k) w = Raise IndexError w).
      { do 4 (destruct k as [|k]; [lia|]). reflexivity. }
      rewrite Hg. reflexivity.
  - apply IH.
Qed.

Lemma ship_indices_range k targets si :
  ship_indices_from k targets = Some si ->
  forall t, In t si -> 3 <= t < 7.
Proof.
  revert k si. induction targets as [|b rest IH]; intros k si H t Ht.
  - injection H as <-. destruct Ht.
  - cbn [ship_indices_from] in H. destruct b.
    + destruct (k <? 4) eqn:Hk; [|discriminate]. apply Nat.ltb_lt in Hk.
      destruct (ship_indices_from (S k) rest) as [si'|] eqn:E; [|discriminate].
      injection H as <-. destruct Ht as [<- | Ht]; [lia|].
      eapply IH; eassumption.
    + eapply IH; eassumption.
Qed.

Lemma run_qc_append_fresh {B} (h : list QuantumCircuit) c s l ent qargs
    (k : unit -> Py B) :
  (length qargs =? num_qubits s) && (num_clbits s =? 0)
    && forallb (fun q => q <? num_qubits c) qargs
    && bool_decide (NoDup qargs) = true ->
  run (qc_append (length h) (length (h ++ [c])) qargs ≫= k)
      (mkWorld (h ++ c :: s :: l) ent) =
  run (k tt)
      (mkWorld (h ++ mkQC (num_qubits c) (num_clbits c)
                          (data c ++ map (remap qargs) (data s)) :: s :: l) ent).
Proof.
  intros Hv. unfold qc_append. rewrite run_bind, run_bind.
  rewrite (run_deref _ _ s).
  2:{ cbn [heap]. change (h ++ c :: s :: l) with (h ++ [c] ++ s :: l).
      rewrite app_assoc. apply lookup_fresh. }
  rewrite run_bind, (run_deref _ _ c) by apply lookup_fresh.
  rewrite Hv. cbn [assign run]. unfold set_heap. cbn [heap entropy].
  rewrite insert_fresh. reflexivity.
Qed.

Section Scan.
Variable transpile_pass : QuantumCircuit -> QuantumCircuit.

Lemma scan_run_index_error targets w :
  ship_indices_from 0 targets = None ->
  run (run_quantum_counting_scan transpile_pass targets) w =
  Raise IndexError (set_heap w (heap w ++ [mkQC 7 3 []])).
Proof.
  intros Hs. unfold run_quantum_counting_scan, new_QuantumCircuit.
  cbn zeta. rewrite (run_bind_Return _ _ _ _ _ (run_alloc _ _)).
  erewrite run_bind_Raise; [reflexivity|].
  unfold enumerate. rewrite list_comp_ship, Hs. reflexivity.
Qed.

(** The scan builds its circuit, has it transpiled and run, and decodes
    the string [s] that comes back, whatever the transpiler is. *)
Lemma scan_run_outs targets si outs s v w :
  ship_indices_from 0 targets = Some si ->
  outcomes (transpile_pass (scan_circuit si)) = Some outs ->
  (forall x, In x outs <-> In x [s]) ->
  (forall w', run (int (string_rev s) 2) w' = Return v w') ->
  run (run_quantum_counting_scan transpile_pass targets) w =
  Return (v, length (heap w) + 2)
         (mkWorld (heap w ++ [scan_circuit si; mkQC 3 0 (iqft_spec 3);
                              transpile_pass (scan_circuit si)])
                  (fun i => entropy w (1 + i))).
Proof.
  intros Hs Ho Hin Hv. pose proof (ship_indices_range _ _ _ Hs) as Hr.
  destruct w as [h ent]. unfold run_quantum_counting_scan, new_QuantumCircuit.
  cbn zeta. rewrite (run_bind_Return _ _ _ _ _ (run_alloc _ _)).
  unfold set_heap. cbn [heap entropy].
  erewrite run_bind_Return.
  2:{ unfold enumerate. rewrite list_comp_ship, Hs. reflexivity. }
  (* the X gates *)
  erewrite step_extends.
  2:{ unfold qc_x. apply extends_for_instr with (g := XGate).
      intros t Ht. apply Nat.ltb_lt. apply Hr in Ht. lia. }
  (* the Hadamards *)
  erewrite step_extends.
  2:{ unfold qc_h_list, qc_h. apply extends_for_instr with (g := HGate).
      intros q Hq. apply Nat.ltb_lt. cbn in Hq. lia. }
  (* the phase kickback *)
  erewrite step_extends with (gs := kickback_gates si).
  2:{ unfold kickback_gates. apply extends_for. intros c Hc.
      unfold qc_cp.
      apply extends_for_instr
        with (g := fun t => CPhaseGate (kickback_angle c) c t).
      intros t Ht. apply Hr in Ht. cbn in Hc. cbn [valid_instr].
      repeat (apply andb_true_intro; split);
        [apply Nat.ltb_lt; lia | apply Nat.ltb_lt; lia |].
      apply negb_true_iff, Nat.eqb_neq. lia. }
  unfold qc_barrier. extend_step.
  (* the inverse Fourier sub-circuit *)
  rewrite (run_bind_Return _ _ _ _ _ (iqft_gate_run 3 _ ltac:(lia))).
  unfold set_heap. cbn [heap entropy].
  rewrite <- (app_assoc h). cbn [app].
  rewrite run_qc_append_fresh by reflexivity.
  cbn [num_qubits num_clbits data].
  extend_step.
  erewrite step_extends
    with (gs := [Measure 0 0; Measure 1 1; Measure 2 2]).
  2:{ unfold qc_measure_list, qc_measure. cbn [range length Nat.eqb Nat.sub seq combine].
      apply extends_for_instr
        with (g := fun p : nat * nat => Measure p.1 p.2)
             (l := [(0, 0); (1, 1); (2, 2)]).
      intros p Hp. cbn in Hp.
      destruct Hp as [<- | [<- | [<- | []]]]; reflexivity. }
  (* one shot *)
  set (d := (_ ++ [Measure 0 0; Measure 1 1; Measure 2 2])).
  assert (Hd : d = scan_gates si).
  { subst d. unfold scan_gates. cbn [range seq map Nat.sub app].
    rewrite <- !app_assoc. reflexivity. }
  rewrite Hd. fold (scan_circuit si).
  rewrite (run_shot_outs transpile_pass
             (fun key => int (string_rev key) 2) h _ _ ent outs s Ho Hin).
  rewrite run_bind, Hv. cbn [run Py_ret mret].
  rewrite <- (app_assoc h). cbn [app].
  rewrite length_app. reflexivity.
Qed.

Hypothesis transpile_sound :
  forall c, same_outcomes (outcomes (transpile_pass c)) (outcomes c).

Lemma scan_run targets si s v w :
  ship_indices_from 0 targets = Some si ->
  outcomes (scan_circuit si) = Some [s] ->
  (forall w', run (int (string_rev s) 2) w' = Return v w') ->
  run (run_quantum_counting_scan transpile_pass targets) w =
  Return (v, length (heap w) + 2)
         (mkWorld (heap w ++ [scan_circuit si; mkQC 3 0 (iqft_spec 3);
                              transpile_pass (scan_circuit si)])
                  (fun i => entropy w (1 + i))).
Proof.
  intros Hs Hc Hv.
  pose proof (transpile_sound (scan_circuit si)) as Ht. rewrite Hc in Ht.
  destruct (outcomes (transpile_pass (scan_circuit si))) as [outs|] eqn:Ho;
    [|destruct Ht].
  cbn [same_outcomes] in Ht.
  exact (scan_run_outs targets si outs s v w Hs Ho Ht Hv).
Qed.

End Scan.

(* ------------------------------------------------------------------ *)
(** ** The sixteen patterns of marked targets *)

Lemma ship_indices_beyond k targets si :
  4 <= k -> ship_indices_from k targets = Some si -> si = [].
Proof.
  revert k si. induction targets as [|b rest IH]; intros k si Hk H.
  - injection H as <-. reflexivity.
  - cbn [ship_indices_from] in H. destruct b.
    + destruct (Nat.ltb_spec k 4); [lia | discriminate].
    + apply (IH (S k)); [lia | exact H].
Qed.

Lemma ship_indices_none k targets :
  ship_indices_from k targets = None <->
  existsb (fun b => b) (drop (4 - k) targets) = true.
Proof.
  revert k. induction targets as [|b rest IH]; intros k.
  - rewrite drop_nil. cbn. split; discriminate.
  - cbn [ship_indices_from]. destruct (Nat.ltb_spec k 4) as [Hk|Hk].
    + replace (4 - k) with (S (4 - S k)) by lia. cbn [drop].
      rewrite <- IH. destruct b; [|reflexivity].
      destruct (ship_indices_from (S k) rest); cbn; split; congruence.
    + replace (4 - k) with 0 by lia. cbn [drop existsb].
      destruct b; [cbn; split; reflexivity|].
      rewrite IH. replace (4 - S k) with 0 by lia. reflexivity.
Qed.

Lemma ship_indices_length k targets si :
  ship_indices_from k targets = Some si ->
  length si = count_occ Bool.bool_dec targets true.
Proof.
  revert k si. induction targets as [|b rest IH]; intros k si H.
  - injection H as <-. reflexivity.
  - cbn [ship_indices_from] in H. destruct b.
    + destruct (k <? 4); [|discriminate].
      destruct (ship_indices_from (S k) rest) as [si'|] eqn:E; [|discriminate].
      injection H as <-. cbn. f_equal. eapply IH, E.
    + cbn. eapply IH, H.
Qed.

Lemma ship_indices_four targets :
  length targets = 4 -> exists si, ship_indices_from 0 targets = Some si.
Proof.
  intros H. destruct (ship_indices_from 0 targets) as [si|] eqn:E; [eauto|].
  apply ship_indices_none in E. rewrite drop_ge in E by (cbn; lia).
  discriminate.
Qed.

Lemma scan_outcomes targets si :
  ship_indices_from 0 targets = Some si ->
  outcomes (scan_circuit si) = Some [scan_string (length si)].
Proof.
  intros H.
  destruct targets as [|a [|b [|c [|d rest]]]]; cbn [ship_indices_from Nat.ltb Nat.leb] in H.
  5:{ assert (Hrest : forall x, ship_indices_from 4 rest = Some x -> x = [])
        by (intros x; apply ship_indices_beyond; lia).
      destruct (ship_indices_from 4 rest) as [x|] eqn:E.
      - rewrite (Hrest x eq_refl) in H.
        destruct a, b, c, d; cbn in H; injection H as <-; vm_compute; reflexivity.
      - destruct a, b, c, d; cbn in H; discriminate. }
  all: repeat match goal with x : bool |- _ => destruct x end;
       cbn in H; injection H as <-; vm_compute; reflexivity.
Qed.

Lemma scan_decode m w :
  m <= 4 -> run (int (string_rev (scan_string m)) 2) w = Return (Z.of_nat m) w.
Proof.
  intros H. do 5 (destruct m as [|m]; [reflexivity|]). lia.
Qed.

Lemma count_occ_le_length (l : list bool) :
  count_occ Bool.bool_dec l true <= length l.
Proof. induction l as [|[] l IH]; cbn; lia. Qed.

Lemma ship_indices_at_most_four k targets si :
  ship_indices_from k targets = Some si -> length si <= 4 - k.
Proof.
  revert k si. induction targets as [|b rest IH]; intros k si H.
  - injection H as <-. cbn. lia.
  - cbn [ship_indices_from] in H. destruct b.
    + destruct (Nat.ltb_spec k 4); [|discriminate].
      destruct (ship_indices_from (S k) rest) as [si'|] eqn:E; [|discriminate].
      injection H as <-. apply IH in E. cbn. lia.
    + apply IH in H. lia.
Qed.

Section ScanResult.
Variable transpile_pass : QuantumCircuit -> QuantumCircuit.
Hypothesis transpile_sound :
  forall c, same_outcomes (outcomes (transpile_pass c)) (outcomes c).

(** Whenever every marked position has a target qubit, the scan returns
    the number of marked positions. *)
Lemma scan_run_count targets si w :
  ship_indices_from 0 targets = Some si ->
  run (run_quantum_counting_scan transpile_pass targets) w =
  Return (Z.of_nat (count_occ Bool.bool_dec targets true), length (heap w) + 2)
         (mkWorld (heap w ++ [scan_circuit si; mkQC 3 0 (iqft_spec 3);
                              transpile_pass (scan_circuit si)])
                  (fun i => entropy w (1 + i))).
Proof.
  intros H. rewrite <- (ship_indices_length _ _ _ H).
  apply (scan_run transpile_pass transpile_sound targets si
           (scan_string (length si)));
    [exact H | apply (scan_outcomes targets), H |].
  intros w'. apply scan_decode.
  apply ship_indices_at_most_four in H. lia.
Qed.

End ScanResult.

(* ------------------------------------------------------------------ *)
(** ** The identity is a sound transpiler pass *)

Lemma same_outcomes_refl o : same_outcomes o o.
Proof. destruct o; cbn; [tauto | exact I]. Qed.

Lemma sound_id : sound (fun c => c).
Proof. intros c. apply same_outcomes_refl. Qed.

Lemma built_iqft_gate n w :
  n <= 1024 ->
  built (iqft_gate n) w = Some (mkQC n 0 (iqft_spec n)).
Proof.
  intros Hn. unfold built. rewrite iqft_gate_run by exact Hn.
  cbn [heap set_heap]. apply lookup_fresh.
Qed.

Lemma built_iqft_gate_overflow n w :
  1025 <= n -> built (iqft_gate n) w = None.
Proof.
  intros Hn. unfold built. rewrite iqft_gate_overflow by exact Hn. reflexivity.
Qed.

(* ------------------------------------------------------------------ *)
(** ** Counting gates *)

Lemma count_app p l1 l2 : count p (l1 ++ l2) = count p l1 + count p l2.
Proof. unfold count. rewrite List.filter_app, length_app. reflexivity. Qed.

Lemma count_map_all {A} p (f : A -> Instruction) l :
  (forall x, p (f x) = true) -> count p (map f l) = length l.
Proof.
  intros H. unfold count. induction l as [|x l IH]; [reflexivity|].
  cbn [map List.filter]. rewrite H. cbn [length]. rewrite IH. reflexivity.
Qed.

Lemma count_map_none {A} p (f : A -> Instruction) l :
  (forall x, p (f x) = false) -> count p (map f l) = 0.
Proof.
  intros H. unfold count. induction l as [|x l IH]; [reflexivity|].
  cbn [map List.filter]. rewrite H. exact IH.
Qed.

Lemma length_countdown n : length (countdown n) = n.
Proof. induction n; cbn; congruence. Qed.

Lemma length_countdown_to hi lo : length (countdown_to hi lo) = hi - lo.
Proof. unfold countdown_to. rewrite length_map. apply length_countdown. Qed.

Lemma count_row_swap n i : count is_swap (iqft_row n i) = 0.
Proof.
  unfold iqft_row. rewrite count_app, count_map_none by reflexivity. reflexivity.
Qed.

Lemma count_row_measure n i : count is_measure (iqft_row n i) = 0.
Proof.
  unfold iqft_row. rewrite count_app, count_map_none by reflexivity. reflexivity.
Qed.

Lemma count_row_hadamard n i : count is_hadamard (iqft_row n i) = 1.
Proof.
  unfold iqft_row. rewrite count_app, count_map_none by reflexivity. reflexivity.
Qed.

Lemma count_row_cphase n i : count is_cphase (iqft_row n i) = n - (i + 1).
Proof.
  unfold iqft_row. rewrite count_app, count_map_all by reflexivity.
  rewrite length_countdown_to. cbn. lia.
Qed.

Lemma count_rows p n m (f : nat -> nat) :
  (forall i, count p (iqft_row n i) = f i) ->
  count p (flat_map (iqft_row n) (countdown m)) =
  list_sum (map f (countdown m)).
Proof.
  intros H. induction m as [|m IH]; [reflexivity|].
  simpl. rewrite count_app, H, IH. reflexivity.
Qed.

Lemma sum_const_countdown c m : list_sum (map (fun _ => c) (countdown m)) = m * c.
Proof. induction m as [|m IH]; simpl; [|rewrite IH]; lia. Qed.

Lemma sum_triangle n m :
  m <= n ->
  2 * list_sum (map (fun i => n - (i + 1)) (countdown m)) + m * (m + 1) = 2 * m * n.
Proof.
  induction m as [|m IH]; intros Hm; [reflexivity|].
  simpl countdown. simpl map. simpl list_sum. specialize (IH ltac:(lia)). nia.
Qed.

Lemma count_cphase_rotations n :
  count is_cphase (iqft_rotations n) = n * (n - 1) / 2.
Proof.
  unfold iqft_rotations.
  rewrite (count_rows _ _ _ (fun i => n - (i + 1))) by apply count_row_cphase.
  apply Nat.div_unique_exact; [lia|].
  pose proof (sum_triangle n n (le_n n)). nia.
Qed.

Lemma three_kinds_length l :
  Forall (fun g => is_swap g || is_cphase g || is_hadamard g = true) l ->
  length l = count is_swap l + count is_cphase l + count is_hadamard l.
Proof.
  unfold count. induction 1 as [|g l Hg _ IH]; [reflexivity|].
  cbn [List.filter length].
  destruct g; cbn in Hg; try discriminate;
    cbn [is_swap is_cphase is_hadamard length]; lia.
Qed.

Lemma count_zero_Forall p l : count p l = 0 -> Forall (fun g => p g = false) l.
Proof.
  unfold count. induction l as [|g l IH]; intros H; constructor.
  - cbn [List.filter] in H. destruct (p g); [discriminate | reflexivity].
  - apply IH. cbn [List.filter] in H. destruct (p g); [discriminate | exact H].
Qed.

(* ------------------------------------------------------------------ *)
(** ** Marked targets and the board *)

Lemma ship_indices_marked k targets si :
  ship_indices_from k targets = Some si ->
  forall t, In t si <-> exists i, targets !! i = Some true /\ t = 3 + (k + i).
Proof.
  revert k si. induction targets as [|b rest IH]; intros k si H t.
  - injection H as <-. split; [intros [] | intros (i & Hi & _); discriminate].
  - cbn [ship_indices_from] in H. destruct b.
    + destruct (k <? 4); [|discriminate].
      destruct (ship_indices_from (S k) rest) as [si'|] eqn:E; [|discriminate].
      injection H as <-. cbn [In]. rewrite (IH _ _ E). split.
      * intros [<- | (i & Hi & ->)].
        -- exists 0. split; [reflexivity | lia].
        -- exists (S i). split; [exact Hi | lia].
      * intros ([|i] & Hi & ->).
        -- left. lia.
        -- right. exists i. split; [exact Hi | lia].
    + rewrite (IH _ _ H). split.
      * intros (i & Hi & ->). exists (S i). split; [exact Hi | lia].
      * intros ([|i] & Hi & ->); [discriminate|].
        exists i. split; [exact Hi | lia].
Qed.

Lemma ship_indices_NoDup_kickback targets si :
  length targets = 4 ->
  ship_indices_from 0 targets = Some si -> NoDup (kickback_gates si).
Proof.
  intros Hl H.
  destruct targets as [|a [|b [|c [|d [|]]]]]; try discriminate.
  destruct a, b, c, d; cbn in H; injection H as <-;
    refine (bool_decide_unpack _ _); vm_compute; exact I.
Qed.


(* ================================================================== *)
(** * The claims *)

(** C1.  For every list of exactly four booleans the counting scan
    returns the number of true entries of the list, and that number lies
    between 0 and 4.  In particular [false,false,false,false] gives 0,
    [true,false,false,false] gives 1, [false,true,false,true] gives 2,
    [true,true,true,false] gives 3 and [true,true,true,true] gives 4.
    This holds in every world, whatever circuit objects exist and whatever
    the entropy of the simulator, and for every sound transpiler pass. *)
Theorem counting_scan_counts tp (Hs : sound tp) targets w :
  length targets = 4 ->
  returns (run_quantum_counting_scan tp targets) w (count_true targets)
  /\ (0 <= count_true targets <= 4)%Z
  /\ returns (run_quantum_counting_scan tp [false; false; false; false]) w 0%Z
  /\ returns (run_quantum_counting_scan tp [true; false; false; false]) w 1%Z
  /\ returns (run_quantum_counting_scan tp [false; true; false; true]) w 2%Z
  /\ returns (run_quantum_counting_scan tp [true; true; true; false]) w 3%Z
  /\ returns (run_quantum_counting_scan tp [true; true; true; true]) w 4%Z.
Proof.
  intros Hlen.
  assert (R : forall t, length t = 4 ->
            returns (run_quantum_counting_scan tp t) w (count_true t)).
  { intros t Ht. destruct (ship_indices_four t Ht) as [si Hsi].
    do 2 eexists. apply (scan_run_count tp Hs t si w Hsi). }
  split; [apply R, Hlen|]. split.
  { unfold count_true. pose proof (count_occ_le_length targets). lia. }
  repeat split.
  - apply (R [false; false; false; false]); reflexivity.
  - apply (R [true; false; false; false]); reflexivity.
  - apply (R [false; true; false; true]); reflexivity.
  - apply (R [true; true; true; false]); reflexivity.
  - apply (R [true; true; true; true]); reflexivity.
Qed.

Lemma counting_scan_counts_witness :
  returns (run_quantum_counting_scan (fun c => c) [false; true; false; true])
          world0 2%Z.
Proof.
  apply (counting_scan_counts (fun c => c) sound_id
           [false; true; false; true] world0 eq_refl).
Defined.

(** C2.  For every boolean [t] the sonar ping returns the bit 0 when [t]
    is false and the bit 1 when [t] is true, on every invocation: in every
    world, whatever the entropy the shot is drawn from, the other bit has
    probability zero. *)
Theorem sonar_ping_deterministic tp (Hs : sound tp) (t : bool) w :
  returns (run_quantum_sonar_ping tp t) w (if t then 1 else 0)%Z.
Proof. do 2 eexists. apply (ping_run tp Hs). Qed.

Lemma sonar_ping_deterministic_witness :
  returns (run_quantum_sonar_ping (fun c => c) true) world0 1%Z.
Proof. apply (sonar_ping_deterministic (fun c => c) sound_id true world0). Defined.

(** C3 as stated fails: the list [[true]] has length 1, and the counting
    scan does not reject it; it returns the count 1. *)
Lemma counting_scan_accepts_short_list :
  length [true] <> 4 /\
  run (run_quantum_counting_scan (fun c => c) [true]) world0 =
  Return (1%Z, 2)
         (mkWorld [scan_circuit [3]; mkQC 3 0 (iqft_spec 3); scan_circuit [3]]
                  (fun i => 0)).
Proof. split; [discriminate | vm_compute; reflexivity]. Qed.

(** C3, amended.  The counting scan makes no check of the length of its
    input.  For every input list, whatever its length: if no entry at
    position 4 or later is true (so for every list shorter than 4) the scan
    returns the number of true entries; if some entry at position 4 or
    later is true, the scan fails with [IndexError]. *)
Theorem counting_scan_no_length_check tp (Hs : sound tp) targets w :
  if existsb (fun b => b) (drop 4 targets)
  then exists w', run (run_quantum_counting_scan tp targets) w = Raise IndexError w'
  else returns (run_quantum_counting_scan tp targets) w (count_true targets).
Proof.
  destruct (ship_indices_from 0 targets) as [si|] eqn:E.
  - destruct (existsb (fun b => b) (drop 4 targets)) eqn:X.
    + apply (ship_indices_none 0) in X. congruence.
    + do 2 eexists. apply (scan_run_count tp Hs targets si w E).
  - pose proof E as X. apply ship_indices_none in X. cbn [Nat.sub] in X.
    rewrite X. eexists. apply scan_run_index_error, E.
Qed.

Lemma counting_scan_no_length_check_witness :
  returns (run_quantum_counting_scan (fun c => c) [true; false; true]) world0 2%Z.
Proof.
  apply (counting_scan_no_length_check (fun c => c) sound_id
           [true; false; true] world0).
Defined.

(** C4 as stated fails: it is claimed for every n >= 1, and for n = 1025
    the builder emits no gate sequence.  The rows of the target qubits
    1024, ..., 1 are appended; the first rotation of the row of qubit 0 has
    control 1024, its angle is [-np.pi / (2**1024)], and the integer
    [2**1024] does not convert to a float.  The builder raises
    [OverflowError] and returns no circuit. *)
Lemma iqft_gate_order_beyond_float_range :
  1 <= 1025
  /\ (exists w', run (iqft_gate 1025) world0 = Raise OverflowError w')
  /\ forall gs, built (iqft_gate 1025) world0 <> Some (mkQC 1025 0 gs).
Proof.
  split; [lia|]. split.
  - eexists. apply iqft_gate_overflow. lia.
  - intros gs. rewrite built_iqft_gate_overflow by lia. discriminate.
Qed.

(** C4, amended.  For every n with 1 <= n <= 1024 the circuit built by
    [iqft_gate n] has n qubits, no classical bit, and exactly this list of
    gates: first the swaps of qubit i with qubit n-1-i for
    i = 0, ..., n/2 - 1 (integer division), and only afterwards, for i
    counting down from n-1 to 0, a controlled phase with control j, target
    i and angle -pi / 2^(j-i) for each j counting down from n-1 to i+1,
    followed by a Hadamard on qubit i.  The first part holds swaps only,
    the second part holds no swap, and there is no measurement anywhere.
    For every n >= 1025 the builder returns no circuit: it raises
    [OverflowError], the divisor 2^1024 being beyond the float range. *)
Theorem iqft_gate_order n w :
  1 <= n ->
  let swaps := map (fun i => SwapGate i (n - 1 - i)) (seq 0 (n / 2)) in
  let rotations :=
    flat_map (fun i =>
      map (fun j => CPhaseGate (mkAngle (-1) (j - i)) j i)
          (countdown_to n (i + 1))
      ++ [HGate i]) (countdown n) in
  (n <= 1024 ->
     built (iqft_gate n) w = Some (mkQC n 0 (swaps ++ rotations)))
  /\ (1025 <= n ->
        exists w', run (iqft_gate n) w = Raise OverflowError w')
  /\ Forall (fun g => is_swap g = true) swaps
  /\ Forall (fun g => is_swap g = false) rotations
  /\ Forall (fun g => is_measure g = false) (swaps ++ rotations).
Proof.
  intros _ swaps rotations.
  change rotations with (iqft_rotations n). change swaps with (iqft_swaps n).
  split; [apply built_iqft_gate|].
  split; [intros Hn; eexists; apply iqft_gate_overflow, Hn|].
  split; [apply List.Forall_map, List.Forall_forall; reflexivity|].
  split.
  - apply count_zero_Forall. unfold iqft_rotations.
    rewrite (count_rows _ _ _ (fun _ => 0)) by apply count_row_swap.
    rewrite sum_const_countdown. lia.
  - apply count_zero_Forall. rewrite count_app. unfold iqft_swaps, iqft_rotations.
    rewrite count_map_none by reflexivity.
    rewrite (count_rows _ _ _ (fun _ => 0)) by apply count_row_measure.
    rewrite sum_const_countdown. lia.
Qed.

Lemma iqft_gate_order_witness :
  built (iqft_gate 3) world0 =
  Some (mkQC 3 0 [SwapGate 0 2;
                  HGate 2;
                  CPhaseGate (mkAngle (-1) 1) 2 1; HGate 1;
                  CPhaseGate (mkAngle (-1) 2) 2 0;
                  CPhaseGate (mkAngle (-1) 1) 1 0; HGate 0]).
Proof.
  apply (proj1 (iqft_gate_order 3 world0 ltac:(lia))). lia.
Defined.

(** C5.  The counting scan decodes the measurement string by reversing it
    and reading the result as an unsigned binary number.  Whatever string
    of three bits a, b, c the backend returns for the circuit it is handed,
    [run_quantum_counting_scan] returns a + 2b + 4c, which is
    [int(s[::-1], 2)] of that string; for each of the eight strings there
    is a circuit with which the backend returns it.  The eight strings of
    three binary digits are pairwise different, and the decoded values are
    0, 1, ..., 7, each exactly once. *)
Theorem decode_bijection w :
  (forall tp targets (a b c : bool),
      length targets = 4 ->
      (forall qc, outcomes (tp qc) = Some [bits_to_string [a; b; c]]) ->
      returns (run_quantum_counting_scan tp targets) w
              (Z.b2z a + 2 * Z.b2z b + 4 * Z.b2z c)%Z)
  /\ (forall a b c : bool,
        outcomes (emits a b c) = Some [bits_to_string [a; b; c]])
  /\ (forall targets, length targets = 4 ->
        map (fun qc =>
               returned (run (run_quantum_counting_scan (fun _ => qc) targets) w))
            [emits false false false; emits true false false;
             emits false true false; emits true true false;
             emits false false true; emits true false true;
             emits false true true; emits true true true] =
        map Some [0; 1; 2; 3; 4; 5; 6; 7]%Z)
  /\ (forall a b c : bool,
        run (int (string_rev (bits_to_string [a; b; c])) 2) w =
        Return (Z.b2z a + 2 * Z.b2z b + 4 * Z.b2z c)%Z w)
  /\ (forall a b c : bool, In (bits_to_string [a; b; c]) (bitstrings 3))
  /\ length (bitstrings 3) = 8
  /\ NoDup (bitstrings 3)
  /\ map (fun s => run (int (string_rev s) 2) w) (bitstrings 3) =
     map (fun v => Return v w) [0; 1; 2; 3; 4; 5; 6; 7]%Z.
Proof.
  assert (D : forall a b c : bool, forall w',
             run (int (string_rev (bits_to_string [a; b; c])) 2) w' =
             Return (Z.b2z a + 2 * Z.b2z b + 4 * Z.b2z c)%Z w').
  { intros [] [] [] w'; reflexivity. }
  assert (S1 : forall tp targets (a b c : bool),
             length targets = 4 ->
             (forall qc, outcomes (tp qc) = Some [bits_to_string [a; b; c]]) ->
             returns (run_quantum_counting_scan tp targets) w
                     (Z.b2z a + 2 * Z.b2z b + 4 * Z.b2z c)%Z).
  { intros tp targets a b c Hl Ho.
    destruct (ship_indices_four targets Hl) as [si Hsi].
    do 2 eexists.
    apply (scan_run_outs tp targets si _ (bits_to_string [a; b; c]) _ w Hsi
             (Ho _)); [tauto | apply D]. }
  assert (E : forall a b c : bool,
             outcomes (emits a b c) = Some [bits_to_string [a; b; c]]).
  { intros [] [] []; vm_compute; reflexivity. }
  split; [exact S1|]. split; [exact E|]. split.
  { intros targets Hl.
    destruct (ship_indices_four targets Hl) as [si Hsi].
    assert (R : forall a b c,
               returned (run (run_quantum_counting_scan
                                (fun _ => emits a b c) targets) w) =
               Some (Z.b2z a + 2 * Z.b2z b + 4 * Z.b2z c)%Z).
    { intros a b c.
      rewrite (scan_run_outs (fun _ => emits a b c) targets si _
                 (bits_to_string [a; b; c]) _ w Hsi (E a b c)
                 ltac:(tauto) (D a b c)).
      reflexivity. }
    cbn [map]. rewrite !R. reflexivity. }
  split; [intros a b c; apply D|].
  split; [intros [] [] []; cbn; tauto|].
  split; [reflexivity|].
  split; [|reflexivity].
  refine (bool_decide_unpack _ _). vm_compute. exact I.
Qed.

Lemma decode_bijection_witness :
  returns (run_quantum_counting_scan (fun _ => emits true false true)
             [true; false; false; false]) world0 5%Z.
Proof.
  exact (proj1 (decode_bijection world0) (fun _ => emits true false true)
           [true; false; false; false] true false true eq_refl
           ltac:(intros; vm_compute; reflexivity)).
Defined.

(** C6.  In the circuit that the counting scan builds for four targets,
    the gates between the three Hadamards and the first barrier are
    controlled phases, without repetition, and they are exactly these: for
    each counting qubit c in {0, 1, 2} and each target qubit t that was
    marked with a Pauli X (t = 3 + i with [targets[i]] true), the
    controlled phase with control c, target t and angle
    2^(2-c) * (pi/4), that is 2^(2-c) steps of pi/4.  No unmarked target
    qubit gets one, and the controlled phases after the barrier act on
    counting qubits only. *)
Theorem phase_kickback_gates tp (Hs : sound tp) targets w :
  length targets = 4 ->
  exists ship_indices kickback tail r w',
    run (run_quantum_counting_scan tp targets) w
      = Return (count_true targets, r) w'
    /\ heap w' !! length (heap w) =
       Some (mkQC 7 3 (map XGate ship_indices ++ [HGate 0; HGate 1; HGate 2]
                       ++ kickback ++ Barrier :: tail))
    /\ (forall t, In t ship_indices <->
                  exists i, targets !! i = Some true /\ t = 3 + i)
    /\ NoDup kickback
    /\ (forall g, In g kickback <->
          exists c t,
            c < 3 /\ In t ship_indices /\
            g = CPhaseGate (angle_mul (2 ^ Z.of_nat (2 - c)) (angle_div np_pi 4))
                           c t)
    /\ (forall c, c < 3 ->
          eighth_turns (angle_mul (2 ^ Z.of_nat (2 - c)) (angle_div np_pi 4))
          = Some (2 ^ Z.of_nat (2 - c))%Z)
    /\ Forall (fun g => match g with
                        | CPhaseGate _ c t => c < 3 /\ t < 3
                        | _ => True
                        end) tail.
Proof.
  intros Hl. destruct (ship_indices_four targets Hl) as [si Hsi].
  exists si, (kickback_gates si). eexists. do 2 eexists.
  split; [apply (scan_run_count tp Hs targets si w Hsi)|].
  split; [cbn [heap]; apply lookup_fresh|].
  split; [apply (ship_indices_marked 0 targets si Hsi)|].
  split; [apply (ship_indices_NoDup_kickback targets si Hl Hsi)|].
  split.
  { intros g. unfold kickback_gates. rewrite in_flat_map. split.
    - intros (c & Hc & Hg). apply in_map_iff in Hg as (t & <- & Ht).
      exists c, t. split; [cbn in Hc; lia|]. split; [exact Ht | reflexivity].
    - intros (c & t & Hc & Ht & ->). exists c. split.
      + cbn. lia.
      + apply in_map_iff. exists t. split; [reflexivity | exact Ht]. }
  split.
  { intros c Hc. do 3 (destruct c as [|c]; [reflexivity|]). lia. }
  repeat constructor.
Qed.

Lemma phase_kickback_gates_witness :
  exists ship_indices kickback tail r w',
    run (run_quantum_counting_scan (fun c => c) [false; true; false; true]) world0
      = Return (count_true [false; true; false; true], r) w'
    /\ heap w' !! length (heap world0) =
       Some (mkQC 7 3 (map XGate ship_indices ++ [HGate 0; HGate 1; HGate 2]
                       ++ kickback ++ Barrier :: tail))
    /\ (forall t, In t ship_indices <->
                  exists i, [false; true; false; true] !! i = Some true /\ t = 3 + i)
    /\ NoDup kickback
    /\ (forall g, In g kickback <->
          exists c t,
            c < 3 /\ In t ship_indices /\
            g = CPhaseGate (angle_mul (2 ^ Z.of_nat (2 - c)) (angle_div np_pi 4))
                           c t)
    /\ (forall c, c < 3 ->
          eighth_turns (angle_mul (2 ^ Z.of_nat (2 - c)) (angle_div np_pi 4))
          = Some (2 ^ Z.of_nat (2 - c))%Z)
    /\ Forall (fun g => match g with
                        | CPhaseGate _ c t => c < 3 /\ t < 3
                        | _ => True
                        end) tail.
Proof.
  exact (phase_kickback_gates (fun c => c) sound_id
           [false; true; false; true] world0 eq_refl).
Defined.




(** C8.  Calling the sonar ping or the counting scan again with the same
    argument gives the same result: from any two worlds, whatever objects
    they hold and whatever their entropy, a call with equal arguments is
    observed to return the same value and the same transpiled circuit, or
    to raise the same exception; and the call leaves every circuit object
    that existed before it as it was. *)
Theorem engines_idempotent tp (Hs : sound tp) :
  (forall t w1 w2,
      observe (run (run_quantum_sonar_ping tp t) w1) =
      observe (run (run_quantum_sonar_ping tp t) w2)
      /\ preserves w1 (run (run_quantum_sonar_ping tp t) w1))
  /\ (forall targets w1 w2,
      observe (run (run_quantum_counting_scan tp targets) w1) =
      observe (run (run_quantum_counting_scan tp targets) w2)
      /\ preserves w1 (run (run_quantum_counting_scan tp targets) w1)).
Proof.
  assert (L : forall (h : list QuantumCircuit) a b c,
            (h ++ [a; b; c]) !! (length h + 2) = Some c).
  { intros h a b c. rewrite lookup_app_r by lia.
    replace (length h + 2 - length h) with 2 by lia. reflexivity. }
  assert (L1 : forall (h : list QuantumCircuit) a b,
            (h ++ [a; b]) !! S (length h) = Some b).
  { intros h a b. rewrite lookup_app_r by lia.
    replace (S (length h) - length h) with 1 by lia. reflexivity. }
  split.
  - intros t w1 w2. rewrite !(ping_run tp Hs). unfold observe, preserves.
    cbn [fst snd heap]. split; [|apply take_app_length].
    rewrite !L1. reflexivity.
  - intros targets w1 w2.
    destruct (ship_indices_from 0 targets) as [si|] eqn:E.
    + rewrite !(scan_run_count tp Hs targets si _ E). unfold observe, preserves.
      cbn [fst snd heap]. rewrite !L. split; [reflexivity | apply take_app_length].
    + rewrite !(scan_run_index_error tp targets _ E). unfold observe, preserves.
      cbn [heap set_heap]. split; [reflexivity | apply take_app_length].
Qed.

Lemma engines_idempotent_witness :
  observe (run (run_quantum_sonar_ping (fun c => c) true) world0) =
  observe (run (run_quantum_sonar_ping (fun c => c) true) world1)
  /\ preserves world0 (run (run_quantum_sonar_ping (fun c => c) true) world0).
Proof.
  exact (proj1 (engines_idempotent (fun c => c) sound_id) true world0 world1).
Defined.



(** C10 as stated fails: it is claimed for every n >= 1, and for n = 1025
    the builder raises [OverflowError]: there is no built circuit whose
    gates could be counted. *)
Lemma iqft_gate_counts_beyond_float_range :
  1 <= 1025
  /\ built (iqft_gate 1025) world0 = None
  /\ ~ exists gs,
         built (iqft_gate 1025) world0 = Some (mkQC 1025 0 gs)
         /\ count is_hadamard gs = 1025.
Proof.
  split; [lia|]. split; [apply built_iqft_gate_overflow; lia|].
  intros (gs & H & _). rewrite built_iqft_gate_overflow in H by lia.
  discriminate.
Qed.

(** C10, amended.  For every n with 1 <= n <= 1024 the circuit built by
    [iqft_gate n] holds exactly n/2 swaps (integer division), exactly
    n(n-1)/2 controlled phases and exactly n Hadamards, and nothing else,
    so n/2 + n(n-1)/2 + n gates in all; and [iqft_gate 1] is a single
    Hadamard on qubit 0.  For every n >= 1025 the builder raises
    [OverflowError] and builds no circuit. *)
Theorem iqft_gate_counts n w :
  1 <= n ->
  (n <= 1024 ->
     exists gs,
       built (iqft_gate n) w = Some (mkQC n 0 gs)
       /\ count is_swap gs = n / 2
       /\ count is_cphase gs = n * (n - 1) / 2
       /\ count is_hadamard gs = n
       /\ Forall (fun g => is_swap g || is_cphase g || is_hadamard g = true) gs
       /\ length gs = n / 2 + n * (n - 1) / 2 + n)
  /\ (1025 <= n ->
        built (iqft_gate n) w = None
        /\ exists w', run (iqft_gate n) w = Raise OverflowError w')
  /\ built (iqft_gate 1) w = Some (mkQC 1 0 [HGate 0]).
Proof.
  intros _. split; [|split; [|apply built_iqft_gate; lia]].
  2:{ intros Hn. split; [apply built_iqft_gate_overflow, Hn|].
      eexists. apply iqft_gate_overflow, Hn. }
  intros Hn.
  exists (iqft_spec n). split; [apply built_iqft_gate, Hn|].
  assert (Hs : count is_swap (iqft_spec n) = n / 2).
  { unfold iqft_spec, iqft_swaps, iqft_rotations.
    rewrite count_app, count_map_all, length_seq by reflexivity.
    rewrite (count_rows _ _ _ (fun _ => 0)) by apply count_row_swap.
    rewrite sum_const_countdown. lia. }
  assert (Hc : count is_cphase (iqft_spec n) = n * (n - 1) / 2).
  { unfold iqft_spec. rewrite count_app, count_cphase_rotations.
    unfold iqft_swaps. rewrite count_map_none by reflexivity. reflexivity. }
  assert (Hh : count is_hadamard (iqft_spec n) = n).
  { unfold iqft_spec, iqft_swaps, iqft_rotations.
    rewrite count_app, count_map_none by reflexivity.
    rewrite (count_rows _ _ _ (fun _ => 1)) by apply count_row_hadamard.
    rewrite sum_const_countdown. lia. }
  assert (Ho : Forall (fun g => is_swap g || is_cphase g || is_hadamard g = true)
                      (iqft_spec n)).
  { unfold iqft_spec, iqft_swaps, iqft_rotations. apply Forall_app. split.
    - apply List.Forall_map, List.Forall_forall. reflexivity.
    - apply List.Forall_flat_map, List.Forall_forall. intros i _.
      unfold iqft_row. apply Forall_app. split.
      + apply List.Forall_map, List.Forall_forall. reflexivity.
      + repeat constructor. }
  repeat split; try assumption.
  rewrite (three_kinds_length _ Ho), Hs, Hc, Hh. reflexivity.
Qed.

Lemma iqft_gate_counts_witness :
  exists gs,
    built (iqft_gate 4) world0 = Some (mkQC 4 0 gs)
    /\ count is_swap gs = 2
    /\ count is_cphase gs = 6
    /\ count is_hadamard gs = 4
    /\ Forall (fun g => is_swap g || is_cphase g || is_hadamard g = true) gs
    /\ length gs = 12.
Proof.
  apply (proj1 (iqft_gate_counts 4 world0 ltac:(lia))). lia.
Defined.

(* ================================================================== *)
(** * Further properties of the code *)

(* ------------------------------------------------------------------ *)
(** ** Strings *)

Lemma list_ascii_app s t :
  String.list_ascii_of_string (s +:+ t) =
  String.list_ascii_of_string s ++ String.list_ascii_of_string t.
Proof.
  induction s as [|a s IH]; [reflexivity|].
  change (String a s +:+ t) with (String a (s +:+ t)).
  cbn [String.list_ascii_of_string app]. rewrite IH. reflexivity.
Qed.

Lemma string_app_assoc s t u : (s +:+ t) +:+ u = s +:+ t +:+ u.
Proof.
  induction s as [|a s IH]; [reflexivity|].
  change ((String a s +:+ t) +:+ u) with (String a ((s +:+ t) +:+ u)).
  rewrite IH. reflexivity.
Qed.

Lemma prefix_app p s : String.prefix p (p +:+ s) = true.
Proof.
  induction p as [|a p IH].
  - change (EmptyString +:+ s) with s. destruct s; reflexivity.
  - change (String a p +:+ s) with (String a (p +:+ s)). cbn [String.prefix].
    destruct (Ascii.ascii_dec a a); [exact IH | contradiction].
Qed.

Lemma str_last_app s c w :
  run (str_last (s +:+ String c EmptyString)) w = Return (String c EmptyString) w.
Proof.
  unfold str_last. rewrite list_ascii_app. cbn [String.list_ascii_of_string].
  rewrite rev_app_distr. reflexivity.
Qed.

Lemma length_one x : String.length x = 1 -> exists c, x = String c EmptyString.
Proof.
  destruct x as [|c [|]]; try discriminate. intros _. exists c. reflexivity.
Qed.

(* ------------------------------------------------------------------ *)
(** ** The gates of the inverse Fourier builder, one by one *)

Lemma NoDup_map_inj {A B} (f : A -> B) (l : list A) :
  (forall x y, f x = f y -> x = y) -> NoDup l -> NoDup (map f l).
Proof.
  intros Hf. induction 1 as [|x l Hx _ IH]; cbn [map]; constructor; [|exact IH].
  rewrite list_elem_of_In, in_map_iff. intros (y & Hy & Hin).
  apply Hf in Hy. subst y. apply Hx, list_elem_of_In, Hin.
Qed.

Lemma NoDup_countdown n : NoDup (countdown n).
Proof.
  induction n as [|n IH]; cbn [countdown]; constructor; [|exact IH].
  rewrite list_elem_of_In, In_countdown. lia.
Qed.

Lemma NoDup_countdown_to hi lo : NoDup (countdown_to hi lo).
Proof.
  unfold countdown_to. apply NoDup_map_inj; [|apply NoDup_countdown].
  intros x y. lia.
Qed.

Lemma In_iqft_swaps n g :
  In g (iqft_swaps n) <-> exists a, a < n / 2 /\ g = SwapGate a (n - 1 - a).
Proof.
  unfold iqft_swaps. rewrite in_map_iff. split.
  - intros (a & <- & Ha). apply in_seq in Ha. exists a. split; [lia | reflexivity].
  - intros (a & Ha & ->). exists a. split; [reflexivity|]. apply in_seq. lia.
Qed.

Lemma In_iqft_row n i g :
  In g (iqft_row n i) <->
  (exists j, i < j < n /\ g = CPhaseGate (mkAngle (-1) (j - i)) j i)
  \/ g = HGate i.
Proof.
  unfold iqft_row. rewrite in_app_iff, in_map_iff. cbn [In]. split.
  - intros [(j & <- & Hj) | [<- | []]]; [left | right; reflexivity].
    apply In_countdown_to in Hj. exists j. split; [lia | reflexivity].
  - intros [(j & Hj & ->) | ->]; [left | right; left; reflexivity].
    exists j. split; [reflexivity|]. apply In_countdown_to. lia.
Qed.

Lemma In_iqft_rotations n g :
  In g (iqft_rotations n) <-> exists i, i < n /\ In g (iqft_row n i).
Proof.
  unfold iqft_rotations. rewrite in_flat_map. split.
  - intros (i & Hi & Hg). apply In_countdown in Hi. eauto.
  - intros (i & Hi & Hg). exists i. split; [apply In_countdown, Hi | exact Hg].
Qed.

Lemma NoDup_iqft_swaps n : NoDup (iqft_swaps n).
Proof.
  unfold iqft_swaps. apply NoDup_map_inj; [|apply NoDup_seq].
  intros x y H. injection H. auto.
Qed.

Lemma NoDup_iqft_row n i : NoDup (iqft_row n i).
Proof.
  unfold iqft_row. apply NoDup_app. split; [|split].
  - apply NoDup_map_inj; [|apply NoDup_countdown_to].
    intros x y H. injection H. auto.
  - intros g Hg Hh. apply list_elem_of_In in Hg, Hh.
    apply in_map_iff in Hg as (j & <- & _). destruct Hh as [Hh | []].
    discriminate.
  - apply NoDup_singleton.
Qed.

Lemma NoDup_iqft_rows n m : NoDup (flat_map (iqft_row n) (countdown m)).
Proof.
  induction m as [|m IH]; cbn [countdown flat_map]; [constructor|].
  apply NoDup_app. split; [apply NoDup_iqft_row|]. split; [|exact IH].
  intros g Hg Hr. apply list_elem_of_In in Hg, Hr.
  apply in_flat_map in Hr as (i & Hi & Hr). apply In_countdown in Hi.
  apply In_iqft_row in Hg, Hr.
  destruct Hg as [(j & _ & ->) | ->], Hr as [(j' & _ & Hr) | Hr];
    try discriminate; injection Hr; lia.
Qed.

Lemma NoDup_iqft_spec n : NoDup (iqft_spec n).
Proof.
  unfold iqft_spec. apply NoDup_app. split; [apply NoDup_iqft_swaps|].
  split; [|apply NoDup_iqft_rows].
  intros g Hg Hr. apply list_elem_of_In in Hg, Hr.
  apply In_iqft_swaps in Hg as (a & _ & ->).
  apply In_iqft_rotations in Hr as (i & _ & Hr).
  apply In_iqft_row in Hr as [(j & _ & Hr) | Hr]; discriminate.
Qed.

(** X1.  For every n <= 1024, the largest size whose angles the builder
    can compute in floats, [iqft_gate n] builds a circuit in which no gate
    occurs twice and whose gates are exactly these: one controlled phase
    for each pair of qubits i < j < n, with the higher qubit j as control,
    the lower qubit i as target and the angle -pi / 2^(j-i); one Hadamard
    for each qubit below n; and one swap of a with n-1-a for each a below
    n/2.  For n = 0 the circuit is empty. *)
Theorem iqft_gate_one_gate_per_pair n w :
  n <= 1024 ->
  exists gs,
    built (iqft_gate n) w = Some (mkQC n 0 gs)
    /\ NoDup gs
    /\ (forall theta j i,
          In (CPhaseGate theta j i) gs <->
          i < j < n /\ theta = mkAngle (-1) (j - i))
    /\ (forall q, In (HGate q) gs <-> q < n)
    /\ (forall a b, In (SwapGate a b) gs <-> a < n / 2 /\ b = n - 1 - a)
    /\ (forall g, In g gs ->
          is_swap g || is_cphase g || is_hadamard g = true)
    /\ (n = 0 -> gs = []).
Proof.
  intros Hn.
  exists (iqft_spec n). split; [apply built_iqft_gate, Hn|].
  split; [apply NoDup_iqft_spec|].
  assert (M : forall g, In g (iqft_spec n) <->
            (exists a, a < n / 2 /\ g = SwapGate a (n - 1 - a))
            \/ (exists i j, i < j < n /\ g = CPhaseGate (mkAngle (-1) (j - i)) j i)
            \/ (exists i, i < n /\ g = HGate i)).
  { intros g. unfold iqft_spec.
    rewrite in_app_iff, In_iqft_swaps, In_iqft_rotations. split.
    - intros [H | (i & Hi & H)]; [left; exact H | right].
      apply In_iqft_row in H as [(j & Hj & ->) | ->]; [left | right]; eauto.
    - intros [H | [(i & j & Hij & ->) | (i & Hi & ->)]]; [left; exact H | |];
        right; exists i; (split; [lia|]); apply In_iqft_row; eauto. }
  split.
  { intros theta j i. rewrite M. split.
    - intros [(a & _ & H) | [(i' & j' & Hij & H) | (i' & _ & H)]];
        try discriminate. injection H as -> -> ->. auto.
    - intros (Hij & ->). right; left. eauto. }
  split.
  { intros q. rewrite M. split.
    - intros [(a & _ & H) | [(i' & j' & _ & H) | (i' & Hi & H)]];
        try discriminate. injection H as ->. exact Hi.
    - intros Hq. right; right. eauto. }
  split.
  { intros a b. rewrite M. split.
    - intros [(a' & Ha & H) | [(i' & j' & _ & H) | (i' & _ & H)]];
        try discriminate. injection H as -> ->. auto.
    - intros (Ha & ->). left. eauto. }
  split.
  { intros g Hg. apply M in Hg.
    destruct Hg as [(a & _ & ->) | [(i & j & _ & ->) | (i & _ & ->)]];
      reflexivity. }
  intros ->. reflexivity.
Qed.

Lemma iqft_gate_one_gate_per_pair_witness :
  exists gs,
    built (iqft_gate 4) world0 = Some (mkQC 4 0 gs)
    /\ NoDup gs
    /\ (forall theta j i,
          In (CPhaseGate theta j i) gs <->
          i < j < 4 /\ theta = mkAngle (-1) (j - i))
    /\ (forall q, In (HGate q) gs <-> q < 4)
    /\ (forall a b, In (SwapGate a b) gs <-> a < 4 / 2 /\ b = 4 - 1 - a)
    /\ (forall g, In g gs ->
          is_swap g || is_cphase g || is_hadamard g = true)
    /\ (4 = 0 -> gs = []).
Proof.
  exact (iqft_gate_one_gate_per_pair 4 world0 ltac:(lia)).
Defined.

(** X2.  [swap_qubits(qc, n)] on a circuit of [nq] qubits: when n <= nq,
    or when n < 2 and there is nothing to swap, it appends the n/2 swaps
    after whatever the circuit holds and returns the very reference it
    was given; when 2 <= n and nq < n, the first swap already names a
    qubit the circuit does not have, and the call raises [CircuitError]
    with the circuit, and everything else, unchanged. *)
Theorem swap_qubits_bounds n nq nc d r w :
  heap w !! r = Some (mkQC nq nc d) ->
  run (swap_qubits r n) w =
  if (n <=? nq) || (n <? 2)
  then Return r (set_heap w (<[r := mkQC nq nc (d ++ iqft_swaps n)]> (heap w)))
  else Raise CircuitError w.
Proof.
  intros Hr. unfold swap_qubits.
  destruct ((n <=? nq) || (n <? 2)) eqn:Hn.
  - assert (E : extends nq nc r
                  (for_ (range 0 (n / 2)) (fun i => qc_swap r i (n - i - 1)))
                  (iqft_swaps n)).
    { unfold iqft_swaps, range, qc_swap. rewrite Nat.sub_0_r.
      erewrite map_ext_in.
      - apply extends_for_instr with (g := fun i => SwapGate i (n - i - 1)).
        intros i Hi. apply in_seq in Hi. cbn [valid_instr].
        assert (2 * i + 2 <= n) by (apply half_bound; lia).
        apply orb_true_iff in Hn as [Hn | Hn];
          [apply Nat.leb_le in Hn | apply Nat.ltb_lt in Hn; lia].
        repeat (apply andb_true_intro; split);
          [apply Nat.ltb_lt; lia | apply Nat.ltb_lt; lia |].
        apply negb_true_iff, Nat.eqb_neq. lia.
      - intros i _. cbn beta. f_equal. lia. }
    rewrite (run_bind_Return _ _ _ _ _ (E w d Hr)). reflexivity.
  - apply orb_false_iff in Hn as [Hq Hn].
    apply Nat.leb_gt in Hq. apply Nat.ltb_ge in Hn.
    assert (Hh : exists m, n / 2 = S m).
    { destruct (n / 2) eqn:E; [|eauto].
      pose proof (Nat.div_mod_eq n 2) as Hd. rewrite E in Hd.
      pose proof (Nat.mod_upper_bound n 2). lia. }
    destruct Hh as [m Hm]. rewrite Hm. unfold range.
    cbn [Nat.sub seq for_]. rewrite !run_bind. unfold qc_swap, append_instr.
    rewrite run_bind, (run_deref _ _ _ Hr). cbn [num_qubits num_clbits valid_instr].
    replace (n - 0 - 1 <? nq) with false
      by (symmetry; apply Nat.ltb_ge; lia).
    rewrite andb_false_r. reflexivity.
Qed.

Lemma swap_qubits_bounds_witness :
  run (swap_qubits 0 4) world1 =
  if (4 <=? 1) || (4 <? 2)
  then Return 0 (set_heap world1
                   (<[0 := mkQC 1 0 ([HGate 0] ++ iqft_swaps 4)]> (heap world1)))
  else Raise CircuitError world1.
Proof. exact (swap_qubits_bounds 4 1 0 [HGate 0] 0 world1 eq_refl). Defined.

(* ------------------------------------------------------------------ *)
(** ** The HTTP handlers *)

Lemma list_comp_dict_total (board : gmap string bool) (f : string -> string)
    keys w :
  run (list_comp (fun k => dict_getitem board (f k)) (fun _ => true) keys) w =
  match mapM (fun k => board !! f k) keys with
  | Some cells => Return cells w
  | None => Raise KeyError w
  end.
Proof.
  induction keys as [|k keys IH]; [reflexivity|].
  cbn [list_comp mapM]. rewrite run_bind. unfold dict_getitem at 1.
  destruct (board !! f k) as [t|]; [|reflexivity].
  rewrite run_mret, run_bind, IH.
  change (mapM (fun k0 => board !! f k0) (k :: keys))
    with (Some t ≫= fun y => mapM (fun k0 => board !! f k0) keys
                     ≫= fun ks => mret (y :: ks)).
  cbn [mbind option_bind].
  destruct (mapM (fun k0 => board !! f k0) keys); reflexivity.
Qed.

Lemma str_last_prefix p id w :
  p <> EmptyString -> String.prefix p id = true ->
  exists c, run (str_last id) w = Return (String c EmptyString) w.
Proof.
  intros Hp H. unfold str_last.
  destruct id as [|a id]; [destruct p; [contradiction | discriminate]|].
  cbn [String.list_ascii_of_string rev].
  destruct (rev (String.list_ascii_of_string id)) as [|c l]; eexists; reflexivity.
Qed.

Lemma count_true_bounds cells :
  (0 <= count_true cells <= Z.of_nat (length cells))%Z.
Proof. unfold count_true. pose proof (count_occ_le_length cells). lia. Qed.

Section HandlerRuns.
Variable tp : QuantumCircuit -> QuantumCircuit.
Hypothesis Hs : sound tp.
Variable board : gmap string bool.

Lemma handle_ping_run (data : gmap string string) id w :
  data !! "id" = Some id -> id <> EmptyString ->
  run (handle_ping tp board data) w =
  Return (JsonPing id (if default false (board !! id) then 1 else 0)%Z)
         (mkWorld (heap w ++ [ping_circuit (default false (board !! id));
                              tp (ping_circuit (default false (board !! id)))])
                  (fun i => entropy w (1 + i))).
Proof.
  intros Hid Hne. unfold handle_ping. rewrite Hid.
  destruct (decide (id = EmptyString)) as [|_]; [contradiction|].
  rewrite run_bind, (ping_run tp Hs). reflexivity.
Qed.

Lemma scan_four_run cells w :
  length cells = 4 ->
  exists si,
    run (run_quantum_counting_scan tp cells) w =
    Return (count_true cells, length (heap w) + 2)
           (mkWorld (heap w ++ [scan_circuit si; mkQC 3 0 (iqft_spec 3);
                                tp (scan_circuit si)])
                    (fun i => entropy w (1 + i))).
Proof.
  intros Hl. destruct (ship_indices_four cells Hl) as [si Hsi].
  exists si. apply (scan_run_count tp Hs cells si w Hsi).
Qed.

Lemma handle_scan_line_run (data : gmap string string) (row : bool) infix x w :
  data !! "id" = Some (scan_prefix row +:+ infix +:+ x) ->
  String.length x = 1 ->
  match mapM (fun k => board !! k) (line_cells row x) with
  | Some cells =>
      length cells = 4 /\
      exists w',
        run (handle_scan tp board data) w =
        Return (JsonScan (scan_prefix row +:+ infix +:+ x) (count_true cells)) w'
  | None => run (handle_scan tp board data) w = Raise KeyError w
  end.
Proof.
  intros Hid Hx. apply length_one in Hx as [c ->].
  unfold handle_scan. rewrite Hid.
  assert (Hlast : forall w0,
            run (str_last (scan_prefix row +:+ infix +:+ String c EmptyString)) w0
            = Return (String c EmptyString) w0).
  { intros w0.
    replace (scan_prefix row +:+ infix +:+ String c EmptyString)
      with ((scan_prefix row +:+ infix) +:+ String c EmptyString)
      by apply string_app_assoc.
    apply str_last_app. }
  destruct row.
  - rewrite prefix_app. rewrite run_bind, Hlast, run_bind, list_comp_dict_total.
    change (mapM (fun k => board !! k) (line_cells true (String c EmptyString)))
      with (mapM (fun k => board !! (String c EmptyString +:+ k)) (str_iter COLS)).
    destruct (mapM _ (str_iter COLS)) as [cells|] eqn:E; [|reflexivity].
    apply length_mapM in E. split; [symmetry; exact E|].
    destruct (scan_four_run cells w (eq_sym E)) as [si Hrun].
    eexists. rewrite run_bind, Hrun. reflexivity.
  - replace (String.prefix "scan-row-"
               (scan_prefix false +:+ infix +:+ String c EmptyString))
      with false by reflexivity.
    rewrite prefix_app. rewrite run_bind, Hlast, run_bind, list_comp_dict_total.
    change (mapM (fun k => board !! k) (line_cells false (String c EmptyString)))
      with (mapM (fun k => board !! (k +:+ String c EmptyString)) (str_iter ROWS)).
    destruct (mapM _ (str_iter ROWS)) as [cells|] eqn:E; [|reflexivity].
    apply length_mapM in E. split; [symmetry; exact E|].
    destruct (scan_four_run cells w (eq_sym E)) as [si Hrun].
    eexists. rewrite run_bind, Hrun. reflexivity.
Qed.

End HandlerRuns.

Lemma count_true_sum cells : count_true cells = sum_Z (map Z.b2z cells).
Proof.
  unfold count_true. induction cells as [|[] cells IH]; [reflexivity| |].
  - cbn [map sum_Z foldr]. fold (sum_Z (map Z.b2z cells)). rewrite <- IH.
    cbn [count_occ]. destruct (Bool.bool_dec true true); [|contradiction].
    cbn [Z.b2z]. lia.
  - cbn [map sum_Z foldr]. fold (sum_Z (map Z.b2z cells)). rewrite <- IH.
    cbn [count_occ]. destruct (Bool.bool_dec false true); [discriminate|].
    cbn [Z.b2z]. lia.
Qed.

Lemma ping_value_cell tp (Hs : sound tp) (board : gmap string bool) k w :
  k <> EmptyString ->
  ping_value tp board k w =
  Some (if default false (board !! k) then 1 else 0)%Z.
Proof.
  intros Hk. unfold ping_value.
  rewrite (handle_ping_run tp Hs board {["id" := k]} k w); [reflexivity | | exact Hk].
  apply lookup_singleton_eq.
Qed.

Lemma line_cells_nonempty row x k :
  In k (line_cells row x) -> String.length x = 1 -> k <> EmptyString.
Proof.
  intros Hk Hx. apply length_one in Hx as [c ->].
  destruct row; cbn in Hk; intuition (subst; discriminate).
Qed.

(** X4.  [handle_ping] on a request whose body is a JSON object in which
    the id is absent or a string.  On these requests it does not raise.  A
    request without an id, or with the empty string as id, is answered
    with the error "No ID provided", status 400, and nothing else happens.
    Any other string is echoed with result 1 when the board marks that
    cell as a ship and with result 0 otherwise, and a string that is not a
    cell of the board counts as water: it gets result 0, not an error. *)
Theorem handle_ping_answers tp (Hs : sound tp) (board : gmap string bool)
    (data : gmap string string) w :
  match data !! "id" with
  | None =>
      run (handle_ping tp board data) w =
      Return (JsonError "No ID provided" 400) w
  | Some id =>
      if decide (id = EmptyString)
      then run (handle_ping tp board data) w =
           Return (JsonError "No ID provided" 400) w
      else exists w',
          run (handle_ping tp board data) w =
          Return (JsonPing id (match board !! id with
                               | Some true => 1
                               | Some false | None => 0
                               end)%Z) w'
  end.
Proof.
  destruct (data !! "id") as [id|] eqn:Hid.
  - destruct (decide (id = EmptyString)) as [He|Hne].
    + unfold handle_ping. rewrite Hid.
      destruct (decide (id = EmptyString)); [reflexivity | contradiction].
    + rewrite (handle_ping_run tp Hs board data id w Hid Hne).
      destruct (board !! id) as [[]|]; eexists; reflexivity.
  - unfold handle_ping. rewrite Hid. reflexivity.
Qed.

Lemma handle_ping_answers_witness :
  match ({["id" := "Z9"]} : gmap string string) !! "id" with
  | None =>
      run (handle_ping (fun c => c) board0 {["id" := "Z9"]}) world0 =
      Return (JsonError "No ID provided" 400) world0
  | Some id =>
      if decide (id = EmptyString)
      then run (handle_ping (fun c => c) board0 {["id" := "Z9"]}) world0 =
           Return (JsonError "No ID provided" 400) world0
      else exists w',
          run (handle_ping (fun c => c) board0 {["id" := "Z9"]}) world0 =
          Return (JsonPing id (match board0 !! id with
                               | Some true => 1
                               | Some false | None => 0
                               end)%Z) w'
  end.
Proof.
  exact (handle_ping_answers (fun c => c) sound_id board0 {["id" := "Z9"]} world0).
Defined.

(** X5.  [handle_scan] on a request whose body is a JSON object in which
    the id is absent or a string.  On these requests it does one of four
    things.  It answers a count, which then lies between 0 and 4 and comes
    with the id of the request; or it answers the error "Invalid scan ID"
    with status 400; or it raises [AttributeError], which among these
    requests happens only when the id is absent; or it raises [KeyError].
    In the last three cases no circuit has been built and the heap and
    the entropy are as they were.  On these requests it answers nothing
    else and raises no other exception. *)
Theorem handle_scan_outcomes tp (Hs : sound tp) (board : gmap string bool)
    (data : gmap string string) w :
  match run (handle_scan tp board data) w with
  | Return (JsonScan id n) _ => data !! "id" = Some id /\ (0 <= n <= 4)%Z
  | Return (JsonError msg status) w' =>
      msg = "Invalid scan ID" /\ status = 400 /\ w' = w
  | Return (JsonPing _ _) _ => False
  | Raise e w' =>
      (e = AttributeError /\ data !! "id" = None \/ e = KeyError) /\ w' = w
  end.
Proof.
  unfold handle_scan. destruct (data !! "id") as [id|] eqn:Hid.
  2:{ cbn. auto. }
  assert (L : forall (f : string -> string) keys,
            length keys = 4 ->
            match run (targets_to_scan ←
                         list_comp (fun k => dict_getitem board (f k))
                                   (fun _ => true) keys;
                       '(count, _) ← run_quantum_counting_scan tp targets_to_scan;
                       mret (JsonScan id count)) w with
            | Return (JsonScan id' n) _ => Some id = Some id' /\ (0 <= n <= 4)%Z
            | Return (JsonError msg status) w' =>
                msg = "Invalid scan ID" /\ status = 400 /\ w' = w
            | Return (JsonPing _ _) _ => False
            | Raise e w' =>
                (e = AttributeError /\ Some id = None \/ e = KeyError) /\ w' = w
            end).
  { intros f keys Hk. rewrite run_bind, list_comp_dict_total.
    destruct (mapM _ keys) as [cells|] eqn:E; [|auto].
    apply length_mapM in E. rewrite Hk in E.
    destruct (scan_four_run tp Hs cells w (eq_sym E)) as [si Hrun].
    rewrite run_bind, Hrun. cbn. split; [reflexivity|].
    pose proof (count_true_bounds cells). lia. }
  destruct (String.prefix "scan-row-" id) eqn:P.
  - destruct (str_last_prefix "scan-row-" id w ltac:(discriminate) P) as [c Hc].
    rewrite run_bind, Hc. apply (L (fun k => String c EmptyString +:+ k)).
    reflexivity.
  - destruct (String.prefix "scan-col-" id) eqn:Q.
    + destruct (str_last_prefix "scan-col-" id w ltac:(discriminate) Q) as [c Hc].
      rewrite run_bind, Hc. apply (L (fun k => k +:+ String c EmptyString)).
      reflexivity.
    + cbn. auto.
Qed.

Lemma handle_scan_outcomes_witness :
  match run (handle_scan (fun c => c) board0 {["id" := "scan-row-Z"]}) world0 with
  | Return (JsonScan id n) _ =>
      ({["id" := "scan-row-Z"]} : gmap string string) !! "id" = Some id
      /\ (0 <= n <= 4)%Z
  | Return (JsonError msg status) w' =>
      msg = "Invalid scan ID" /\ status = 400 /\ w' = world0
  | Return (JsonPing _ _) _ => False
  | Raise e w' =>
      (e = AttributeError
       /\ ({["id" := "scan-row-Z"]} : gmap string string) !! "id" = None
       \/ e = KeyError) /\ w' = world0
  end.
Proof.
  exact (handle_scan_outcomes (fun c => c) sound_id board0
           {["id" := "scan-row-Z"]} world0).
Defined.

(** X6.  [handle_scan] finds the line to scan from the prefix and the last
    character of the id alone; what stands between them is not looked at.
    With the prefix [scan-row-] and last character x it reads the four
    cells x1, x2, x3, x4, with the prefix [scan-col-] the four cells Ax, Bx,
    Cx, Dx.  If all four are on the board it answers the number of them
    that hold a ship, with the id of the request; if one is missing it
    raises [KeyError] and nothing else happens. *)
Theorem handle_scan_line tp (Hs : sound tp) (board : gmap string bool)
    (data : gmap string string) (row : bool) infix x w :
  data !! "id" = Some (scan_prefix row +:+ infix +:+ x) ->
  String.length x = 1 ->
  match mapM (fun k => board !! k) (line_cells row x) with
  | Some cells =>
      length cells = 4 /\
      exists w',
        run (handle_scan tp board data) w =
        Return (JsonScan (scan_prefix row +:+ infix +:+ x) (count_true cells)) w'
  | None => run (handle_scan tp board data) w = Raise KeyError w
  end.
Proof. apply (handle_scan_line_run tp Hs). Qed.

Lemma handle_scan_line_witness :
  match mapM (fun k => board0 !! k) (line_cells false "2") with
  | Some cells =>
      length cells = 4 /\
      exists w',
        run (handle_scan (fun c => c) board0 {["id" := "scan-col-again-2"]}) world0 =
        Return (JsonScan (scan_prefix false +:+ "again-" +:+ "2") (count_true cells)) w'
  | None =>
      run (handle_scan (fun c => c) board0 {["id" := "scan-col-again-2"]}) world0 =
      Raise KeyError world0
  end.
Proof.
  exact (handle_scan_line (fun c => c) sound_id board0
           {["id" := "scan-col-again-2"]} false "again-" "2" world0
           eq_refl eq_refl).
Defined.

(** X7.  The two oracles agree.  For a line whose four cells are on the
    board, the count that [handle_scan] answers is the sum of the results
    that [handle_ping] answers for the four cells, each of which is 0 or
    1, in whatever worlds the five requests are served. *)
Theorem scan_count_is_sum_of_pings tp (Hs : sound tp)
    (board : gmap string bool) (row : bool) x cells (ws : string -> World) w :
  String.length x = 1 ->
  mapM (fun k => board !! k) (line_cells row x) = Some cells ->
  exists pings,
    mapM (fun cell => ping_value tp board cell (ws cell)) (line_cells row x)
      = Some pings
    /\ scan_value tp board (scan_prefix row +:+ x) w = Some (sum_Z pings)
    /\ Forall (fun v => v = 0 \/ v = 1)%Z pings.
Proof.
  intros Hx Hc. exists (map Z.b2z cells). split; [|split].
  - apply mapM_Some. apply mapM_Some in Hc.
    assert (Hne : forall k, In k (line_cells row x) -> k <> EmptyString)
      by (intros k Hk; apply (line_cells_nonempty row x k Hk Hx)).
    induction Hc as [|k t keys cells Hk _ IH]; cbn [map]; constructor.
    + rewrite (ping_value_cell tp Hs) by (apply Hne; left; reflexivity).
      rewrite Hk. destruct t; reflexivity.
    + apply IH. intros k' Hk'. apply Hne. right. exact Hk'.
  - unfold scan_value.
    pose proof (handle_scan_line_run tp Hs board
                  {["id" := scan_prefix row +:+ x]} row EmptyString x w) as H.
    change (scan_prefix row +:+ EmptyString +:+ x) with (scan_prefix row +:+ x) in H.
    specialize (H (lookup_singleton_eq _ _) Hx). rewrite Hc in H.
    destruct H as (_ & w' & ->). rewrite count_true_sum. reflexivity.
  - apply List.Forall_map, List.Forall_forall. intros [] _; auto.
Qed.

Lemma scan_count_is_sum_of_pings_witness :
  exists pings,
    mapM (fun cell => ping_value (fun c => c) board0 cell world1)
         (line_cells true "A")
      = Some pings
    /\ scan_value (fun c => c) board0 (scan_prefix true +:+ "A") world0
       = Some (sum_Z pings)
    /\ Forall (fun v => v = 0 \/ v = 1)%Z pings.
Proof.
  exact (scan_count_is_sum_of_pings (fun c => c) sound_id board0 true "A"
           [true; false; true; false] (fun _ => world1) world0
           eq_refl eq_refl).
Defined.

(* ------------------------------------------------------------------ *)
(** ** The board *)

Lemma sample_from_spec {A} (pool : list A) k tape :
  k <= length pool -> NoDup pool ->
  length (sample_from pool k tape) = k
  /\ NoDup (sample_from pool k tape)
  /\ (forall x, x ∈ sample_from pool k tape -> x ∈ pool).
Proof.
  revert pool tape. induction k as [|k IH]; intros pool tape Hk Hnd.
  { cbn. split; [reflexivity|]. split; [constructor|]. intros x Hx.
    inversion Hx. }
  cbn [sample_from].
  assert (Hj : tape 0 mod length pool < length pool)
    by (apply Nat.mod_upper_bound; lia).
  destruct (lookup_lt_is_Some_2 pool _ Hj) as [x Hx]. rewrite Hx.
  assert (Hlen : length (delete (tape 0 mod length pool) pool) = length pool - 1)
    by (apply length_delete; eauto).
  assert (Hsub : delete (tape 0 mod length pool) pool `sublist_of` pool)
    by apply sublist_delete.
  destruct (IH (delete (tape 0 mod length pool) pool) (fun i => tape (S i)))
    as (Hl & Hn & Hin); [lia | eapply sublist_NoDup; eassumption |].
  split; [cbn; lia|]. split.
  - constructor; [|exact Hn]. intros Hxs. apply Hin in Hxs.
    rewrite delete_take_drop in Hxs.
    rewrite <- (take_drop_middle pool _ x Hx) in Hnd.
    apply NoDup_app in Hnd as (_ & Hd & Hc). apply NoDup_cons in Hc as [Hc _].
    apply elem_of_app in Hxs as [Hxs | Hxs]; [|contradiction].
    apply (Hd x Hxs). left.
  - intros y Hy. apply elem_of_cons in Hy as [-> | Hy].
    + eapply list_elem_of_lookup_2, Hx.
    + eapply elem_of_sublist; [apply Hin, Hy | exact Hsub].
Qed.

Lemma foldl_insert_lookup (f : string -> bool) l (d : gmap string bool) k :
  foldl (fun d x => <[x := f x]> d) d l !! k =
  if decide (k ∈ l) then Some (f k) else d !! k.
Proof.
  revert d. induction l as [|x l IH]; intros d; cbn [foldl].
  - destruct (decide (k ∈ [])) as [H|_]; [inversion H | reflexivity].
  - rewrite IH. destruct (decide (k ∈ l)) as [Hl|Hl].
    + destruct (decide (k ∈ x :: l)) as [_|H]; [reflexivity|].
      exfalso. apply H. right. exact Hl.
    + destruct (decide (k = x)) as [->|Hx].
      * rewrite lookup_insert_eq.
        destruct (decide (x ∈ x :: l)) as [_|H]; [reflexivity|].
        exfalso. apply H. left.
      * rewrite lookup_insert_ne by congruence.
        destruct (decide (k ∈ x :: l)) as [H|_]; [|reflexivity].
        apply elem_of_cons in H as [H | H]; contradiction.
Qed.

Lemma make_board_lookup ships coord :
  make_board ships !! coord =
  if decide (coord ∈ all_coords) then Some (bool_decide (coord ∈ ships))
  else None.
Proof.
  unfold make_board.
  rewrite (foldl_insert_lookup (fun c => bool_decide (c ∈ ships))).
  destruct (decide (coord ∈ all_coords)); [reflexivity | apply lookup_empty].
Qed.

Lemma NoDup_all_coords : NoDup all_coords.
Proof. refine (bool_decide_unpack _ _). vm_compute. exact I. Qed.

Lemma make_board_cells ships keys :
  Forall (fun k => k ∈ all_coords) keys ->
  mapM (fun k => make_board ships !! k) keys =
  Some (map (fun k => bool_decide (k ∈ ships)) keys).
Proof.
  intros H. apply mapM_Some. induction H as [|k keys Hk _ IH]; cbn [map];
    constructor; [|exact IH].
  rewrite make_board_lookup. destruct (decide (k ∈ all_coords)); [reflexivity|].
  contradiction.
Qed.

(** the number of ships among the cells [l] *)
Lemma ships_among_length (ships l : list string) :
  count_true (map (fun k => bool_decide (k ∈ ships)) l) =
  Z.of_nat (length (filter (fun k => k ∈ ships) l)).
Proof.
  unfold count_true. f_equal. induction l as [|k l IH]; [reflexivity|].
  cbn [map count_occ]. rewrite filter_cons.
  destruct (decide (k ∈ ships)) as [H|H].
  - rewrite (bool_decide_eq_true_2 _ H).
    destruct (Bool.bool_dec true true); [|contradiction]. cbn [length].
    rewrite IH. reflexivity.
  - rewrite (bool_decide_eq_false_2 _ H).
    destruct (Bool.bool_dec false true); [discriminate|]. exact IH.
Qed.

Lemma ships_among_all (ships l : list string) :
  NoDup l -> NoDup ships -> (forall s, s ∈ ships -> s ∈ l) ->
  length (filter (fun k => k ∈ ships) l) = length ships.
Proof.
  intros Hl Hs Hsub. apply Permutation_length, NoDup_Permutation.
  - apply NoDup_filter, Hl.
  - exact Hs.
  - intros x. rewrite list_elem_of_filter. split; [tauto|].
    intros Hx. split; [exact Hx | apply Hsub, Hx].
Qed.

Lemma run_init_game w :
  run init_game w =
  Return (sample_from all_coords SHIP_COUNT (entropy w),
          make_board (sample_from all_coords SHIP_COUNT (entropy w)))
         (mkWorld (heap w) (fun i => entropy w (SHIP_COUNT + i))).
Proof. reflexivity. Qed.

Lemma ships_sampled tape :
  length (sample_from all_coords SHIP_COUNT tape) = SHIP_COUNT
  /\ NoDup (sample_from all_coords SHIP_COUNT tape)
  /\ (forall x, x ∈ sample_from all_coords SHIP_COUNT tape -> x ∈ all_coords).
Proof.
  apply sample_from_spec; [|apply NoDup_all_coords].
  change (length all_coords) with 16. unfold SHIP_COUNT. lia.
Qed.

(** X8.  Loading the module never fails, whatever the entropy: it draws
    [SHIP_COUNT] = 4 different cells among the sixteen coordinates and
    builds a board whose keys are exactly the sixteen coordinates, each
    marked true exactly when it was drawn, so that exactly four cells of
    the board hold a ship.  No circuit object is created or changed. *)
Theorem init_game_board w :
  exists ships board w',
    run init_game w = Return (ships, board) w'
    /\ heap w' = heap w
    /\ length ships = SHIP_COUNT
    /\ NoDup ships
    /\ (forall s, s ∈ ships -> s ∈ all_coords)
    /\ (forall coord,
          board !! coord =
          if decide (coord ∈ all_coords)
          then Some (bool_decide (coord ∈ ships)) else None)
    /\ length all_coords = 16
    /\ length (filter (fun coord => board !! coord = Some true) all_coords)
       = SHIP_COUNT.
Proof.
  do 3 eexists. split; [apply run_init_game|].
  destruct (ships_sampled (entropy w)) as (Hl & Hn & Hsub).
  split; [reflexivity|]. split; [exact Hl|]. split; [exact Hn|].
  split; [exact Hsub|]. split; [apply make_board_lookup|].
  split; [reflexivity|].
  etransitivity; [|exact Hl].
  rewrite <- (ships_among_all _ all_coords NoDup_all_coords Hn Hsub).
  apply Permutation_length, NoDup_Permutation.
  - apply NoDup_filter, NoDup_all_coords.
  - apply NoDup_filter, NoDup_all_coords.
  - intros x. rewrite !list_elem_of_filter, make_board_lookup.
    split; intros [H Hx]; (split; [|exact Hx]).
    + destruct (decide (x ∈ all_coords)); [|discriminate].
      injection H as H. apply bool_decide_eq_true in H. exact H.
    + destruct (decide (x ∈ all_coords)); [|contradiction].
      rewrite (bool_decide_eq_true_2 _ H). reflexivity.
Qed.

Lemma scan_value_line tp (Hs : sound tp) (board : gmap string bool)
    (row : bool) x cells w :
  String.length x = 1 ->
  mapM (fun k => board !! k) (line_cells row x) = Some cells ->
  scan_value tp board (scan_prefix row +:+ x) w = Some (count_true cells).
Proof.
  intros Hx Hc. unfold scan_value.
  pose proof (handle_scan_line_run tp Hs board
                {["id" := scan_prefix row +:+ x]} row EmptyString x w) as H.
  change (scan_prefix row +:+ EmptyString +:+ x) with (scan_prefix row +:+ x) in H.
  specialize (H (lookup_singleton_eq _ _) Hx). rewrite Hc in H.
  destruct H as (_ & w' & ->). reflexivity.
Qed.

Lemma ships_in_lines (ships : list string) (lines : list (list string)) :
  sum_Z (map (fun l => count_true (map (fun k => bool_decide (k ∈ ships)) l))
             lines) =
  Z.of_nat (length (filter (fun k => k ∈ ships) (concat lines))).
Proof.
  induction lines as [|l lines IH]; [reflexivity|].
  cbn [map sum_Z foldr concat].
  fold (sum_Z (map (fun l => count_true (map (fun k => bool_decide (k ∈ ships)) l))
                   lines)).
  rewrite IH, ships_among_length, filter_app, length_app. lia.
Qed.

Lemma lines_add_up (ships : list string) (lines : list (list string)) :
  NoDup ships -> (forall s, s ∈ ships -> s ∈ all_coords) ->
  concat lines ≡ₚ all_coords ->
  sum_Z (map (fun l => count_true (map (fun k => bool_decide (k ∈ ships)) l))
             lines) = Z.of_nat (length ships).
Proof.
  intros Hn Hsub Hp. rewrite ships_in_lines. f_equal.
  rewrite Hp. apply ships_among_all; [apply NoDup_all_coords | exact Hn | exact Hsub].
Qed.

Lemma scan_values_of_lines tp (Hs : sound tp) ships (row : bool) xs
    (ws : string -> World) :
  Forall (fun x => String.length x = 1
                   /\ Forall (fun k => k ∈ all_coords) (line_cells row x)) xs ->
  mapM (fun x => scan_value tp (make_board ships) (scan_prefix row +:+ x) (ws x))
       xs =
  Some (map (fun x => count_true (map (fun k => bool_decide (k ∈ ships))
                                      (line_cells row x))) xs).
Proof.
  intros H. apply mapM_Some.
  induction H as [|x xs [Hx Hk] _ IH]; cbn [map]; constructor; [|exact IH].
  apply (scan_value_line tp Hs); [exact Hx|]. apply make_board_cells, Hk.
Qed.

Lemma lines_on_board (row : bool) :
  Forall (fun x => String.length x = 1
                   /\ Forall (fun k => k ∈ all_coords) (line_cells row x))
         (str_iter (if row then ROWS else COLS)).
Proof.
  destruct row; repeat constructor;
    refine (bool_decide_unpack _ _); vm_compute; exact I.
Qed.

Lemma lines_cover (row : bool) :
  concat (map (line_cells row) (str_iter (if row then ROWS else COLS)))
  ≡ₚ all_coords.
Proof.
  destruct row; [reflexivity|].
  apply NoDup_Permutation; [| apply NoDup_all_coords |].
  - refine (bool_decide_unpack _ _). vm_compute. exact I.
  - intros x. rewrite !list_elem_of_In. vm_compute. tauto.
Qed.

(** X9.  On the board that loading the module builds, whatever the entropy,
    the four row scans of [handle_scan] all answer a count, and the four
    counts add up to [SHIP_COUNT]; the same holds for the four column
    scans.  This holds in whatever worlds the scans are served. *)
Theorem scans_add_up_to_ship_count tp (Hs : sound tp) w0
    (ws : string -> World) :
  match run init_game w0 with
  | Return (ships, board) _ =>
      exists rows cols,
        mapM (fun r => scan_value tp board (scan_prefix true +:+ r) (ws r))
             (str_iter ROWS) = Some rows
        /\ mapM (fun c => scan_value tp board (scan_prefix false +:+ c) (ws c))
                (str_iter COLS) = Some cols
        /\ sum_Z rows = Z.of_nat SHIP_COUNT
        /\ sum_Z cols = Z.of_nat SHIP_COUNT
  | Raise _ _ => False
  end.
Proof.
  rewrite run_init_game.
  destruct (ships_sampled (entropy w0)) as (Hl & Hn & Hsub).
  set (ships := sample_from all_coords SHIP_COUNT (entropy w0)) in *.
  do 2 eexists.
  split; [apply (scan_values_of_lines tp Hs ships true _ ws (lines_on_board true))|].
  split; [apply (scan_values_of_lines tp Hs ships false _ ws (lines_on_board false))|].
  rewrite <- Hl. split.
  - rewrite <- (lines_add_up ships (map (line_cells true) (str_iter ROWS)) Hn Hsub
                  (lines_cover true)).
    rewrite map_map. reflexivity.
  - rewrite <- (lines_add_up ships (map (line_cells false) (str_iter COLS)) Hn Hsub
                  (lines_cover false)).
    rewrite map_map. reflexivity.
Qed.

Lemma scans_add_up_to_ship_count_witness :
  match run init_game world1 with
  | Return (ships, board) _ =>
      exists rows cols,
        mapM (fun r => scan_value (fun c => c) board (scan_prefix true +:+ r)
                         world0)
             (str_iter ROWS) = Some rows
        /\ mapM (fun c => scan_value (fun c => c) board (scan_prefix false +:+ c)
                         world0)
                (str_iter COLS) = Some cols
        /\ sum_Z rows = Z.of_nat SHIP_COUNT
        /\ sum_Z cols = Z.of_nat SHIP_COUNT
  | Raise _ _ => False
  end.
Proof.
  exact (scans_add_up_to_ship_count (fun c => c) sound_id world1
           (fun _ => world0)).
Defined.

(* ------------------------------------------------------------------ *)
(** ** The terminal interface *)

Section TerminalRuns.
Variable tp : QuantumCircuit -> QuantumCircuit.
Hypothesis Hs : sound tp.
Variable board : gmap string bool.

Lemma handle_single_ping_run log button w :
  run (handle_single_ping tp board log button) w =
  Return
    (if default false (board !! button_id button)
     then (log ++ [nl +:+ ">>> [SINGLE PING] COMMAND: PINGING SECTOR "
                      +:+ button_id button +:+ "..."]
               ++ ["    >>> ANALYSIS: **SHIP DETECTED AT "
                      +:+ button_id button +:+ "!** <<<"],
           mkButton (button_id button) "SHIP" "sector-ship" true)
     else (log ++ [nl +:+ ">>> [SINGLE PING] COMMAND: PINGING SECTOR "
                      +:+ button_id button +:+ "..."]
               ++ ["    ...ANALYSIS: Sector " +:+ button_id button
                      +:+ " is clear."],
           mkButton (button_id button) (button_label button) "sector-clear" true))
    (mkWorld (heap w ++ [ping_circuit (default false (board !! button_id button));
                         tp (ping_circuit
                               (default false (board !! button_id button)))])
             (fun i => entropy w (1 + i))).
Proof.
  unfold handle_single_ping. cbn zeta. rewrite run_bind, (ping_run tp Hs).
  unfold write_line. rewrite <- !app_assoc.
  destruct (default false (board !! button_id button)); reflexivity.
Qed.

Lemma handle_scanner_press_run log button (row : bool) infix x w :
  button_id button = scan_prefix row +:+ infix +:+ x ->
  String.length x = 1 ->
  match mapM (fun k => board !! k) (line_cells row x) with
  | Some cells =>
      length cells = 4 /\
      exists w',
        run (handle_scanner_press tp board log button) w =
        Return
          (log ++ [nl +:+ ">>> [ADVANCED COUNTING SCAN] COMMAND: "
                      +:+ button_label button +:+ "..."]
               ++ ["    ...Target list: " +:+ str_list cells]
               ++ [if decide (0 < count_true cells)%Z
                   then "    >>> ANALYSIS: **" +:+ str_int (count_true cells)
                          +:+ " SHIP(S) DETECTED IN " +:+ button_label button
                          +:+ "!**"
                   else "    ...ANALYSIS: " +:+ button_label button
                          +:+ " is ALL CLEAR."],
           mkButton (button_id button)
                    ("SHIPS: " +:+ str_int (count_true cells))
                    "scanner-used" true)
          w'
  | None => run (handle_scanner_press tp board log button) w = Raise KeyError w
  end.
Proof.
  intros Hid Hx. apply length_one in Hx as [c ->].
  unfold handle_scanner_press. cbn zeta. rewrite Hid.
  assert (Hlast : forall w0,
            run (str_last (scan_prefix row +:+ infix +:+ String c EmptyString)) w0
            = Return (String c EmptyString) w0).
  { intros w0.
    replace (scan_prefix row +:+ infix +:+ String c EmptyString)
      with ((scan_prefix row +:+ infix) +:+ String c EmptyString)
      by apply string_app_assoc.
    apply str_last_app. }
  assert (Hfin : forall cells, length cells = 4 ->
            exists w',
              run ('(count, _) ← run_quantum_counting_scan tp cells;
                   mret
                     (if decide (0 < count)%Z
                      then write_line
                             (write_line
                                (write_line log
                                   (nl +:+ ">>> [ADVANCED COUNTING SCAN] COMMAND: "
                                       +:+ button_label button +:+ "..."))
                                ("    ...Target list: " +:+ str_list cells))
                             ("    >>> ANALYSIS: **" +:+ str_int count
                                +:+ " SHIP(S) DETECTED IN "
                                +:+ button_label button +:+ "!**")
                      else write_line
                             (write_line
                                (write_line log
                                   (nl +:+ ">>> [ADVANCED COUNTING SCAN] COMMAND: "
                                       +:+ button_label button +:+ "..."))
                                ("    ...Target list: " +:+ str_list cells))
                             ("    ...ANALYSIS: " +:+ button_label button
                                +:+ " is ALL CLEAR."),
                      set_disabled
                        (set_label (set_classes button "scanner-used")
                           ("SHIPS: " +:+ str_int count)) true)) w =
              Return
                (log ++ [nl +:+ ">>> [ADVANCED COUNTING SCAN] COMMAND: "
                            +:+ button_label button +:+ "..."]
                     ++ ["    ...Target list: " +:+ str_list cells]
                     ++ [if decide (0 < count_true cells)%Z
                         then "    >>> ANALYSIS: **" +:+ str_int (count_true cells)
                                +:+ " SHIP(S) DETECTED IN " +:+ button_label button
                                +:+ "!**"
                         else "    ...ANALYSIS: " +:+ button_label button
                                +:+ " is ALL CLEAR."],
                 mkButton (scan_prefix row +:+ infix +:+ String c EmptyString)
                          ("SHIPS: " +:+ str_int (count_true cells))
                          "scanner-used" true)
                w').
  { intros cells Hl. destruct (scan_four_run tp Hs cells w Hl) as [si Hrun].
    eexists. rewrite run_bind, Hrun. cbn [run Py_ret mret].
    unfold write_line, set_disabled, set_label, set_classes.
    cbn [button_id button_label button_classes button_disabled].
    rewrite Hid, <- !app_assoc.
    destruct (decide (0 < count_true cells)%Z); reflexivity. }
  destruct row.
  - rewrite prefix_app. rewrite run_bind, run_bind, Hlast, list_comp_dict_total.
    change (mapM (fun k => board !! k) (line_cells true (String c EmptyString)))
      with (mapM (fun k => board !! (String c EmptyString +:+ k)) (str_iter COLS)).
    destruct (mapM _ (str_iter COLS)) as [cells|] eqn:E; [|reflexivity].
    apply length_mapM in E. split; [symmetry; exact E|].
    apply (Hfin cells). symmetry. exact E.
  - replace (String.prefix "scan-row-"
               (scan_prefix false +:+ infix +:+ String c EmptyString))
      with false by reflexivity.
    rewrite prefix_app. rewrite run_bind, run_bind, Hlast, list_comp_dict_total.
    change (mapM (fun k => board !! k) (line_cells false (String c EmptyString)))
      with (mapM (fun k => board !! (k +:+ String c EmptyString)) (str_iter ROWS)).
    destruct (mapM _ (str_iter ROWS)) as [cells|] eqn:E; [|reflexivity].
    apply length_mapM in E. split; [symmetry; exact E|].
    apply (Hfin cells). symmetry. exact E.
Qed.

End TerminalRuns.

(** X10.  [handle_single_ping] never raises.  It writes two lines to the
    log, the command line and the analysis line, and disables the button.
    When the board marks the id of the button as a ship it gives the
    button the class [sector-ship] and the label SHIP; otherwise, also
    when the id is not a cell of the board, it gives it the class
    [sector-clear] and leaves the label as it was. *)
Theorem handle_single_ping_marks tp (Hs : sound tp) (board : gmap string bool)
    log button w :
  exists w',
    run (handle_single_ping tp board log button) w =
    Return
      (match board !! button_id button with
       | Some true =>
           (log ++ [nl +:+ ">>> [SINGLE PING] COMMAND: PINGING SECTOR "
                       +:+ button_id button +:+ "...";
                    "    >>> ANALYSIS: **SHIP DETECTED AT "
                       +:+ button_id button +:+ "!** <<<"],
            mkButton (button_id button) "SHIP" "sector-ship" true)
       | Some false | None =>
           (log ++ [nl +:+ ">>> [SINGLE PING] COMMAND: PINGING SECTOR "
                       +:+ button_id button +:+ "...";
                    "    ...ANALYSIS: Sector " +:+ button_id button
                       +:+ " is clear."],
            mkButton (button_id button) (button_label button)
                     "sector-clear" true)
       end) w'.
Proof.
  rewrite (handle_single_ping_run tp Hs).
  destruct (board !! button_id button) as [[]|]; eexists; reflexivity.
Qed.

Lemma handle_single_ping_marks_witness :
  exists w',
    run (handle_single_ping (fun c => c) board0 [] (mkButton "C2" "C2" "" false))
        world0 =
    Return
      (match board0 !! button_id (mkButton "C2" "C2" "" false) with
       | Some true =>
           ([] ++ [nl +:+ ">>> [SINGLE PING] COMMAND: PINGING SECTOR "
                      +:+ button_id (mkButton "C2" "C2" "" false) +:+ "...";
                   "    >>> ANALYSIS: **SHIP DETECTED AT "
                      +:+ button_id (mkButton "C2" "C2" "" false) +:+ "!** <<<"],
            mkButton (button_id (mkButton "C2" "C2" "" false)) "SHIP"
                     "sector-ship" true)
       | Some false | None =>
           ([] ++ [nl +:+ ">>> [SINGLE PING] COMMAND: PINGING SECTOR "
                      +:+ button_id (mkButton "C2" "C2" "" false) +:+ "...";
                   "    ...ANALYSIS: Sector "
                      +:+ button_id (mkButton "C2" "C2" "" false)
                      +:+ " is clear."],
            mkButton (button_id (mkButton "C2" "C2" "" false))
                     (button_label (mkButton "C2" "C2" "" false))
                     "sector-clear" true)
       end) w'.
Proof.
  exact (handle_single_ping_marks (fun c => c) sound_id board0 []
           (mkButton "C2" "C2" "" false) world0).
Defined.

(** X11.  [handle_scanner_press] on a button whose id is [scan-row-] or
    [scan-col-] followed by anything and ending in the character x, when
    the four cells of that line are on the board: it calls
    [log.write_line] three times, first with the command, then with the
    list of the four targets, then with the analysis (the count of ships
    when it is positive, ALL CLEAR when it is zero); it gives the button
    the class [scanner-used] and the label "SHIPS: n", with n the number
    of ships in the line, and disables it. *)
Theorem handle_scanner_press_reports tp (Hs : sound tp)
    (board : gmap string bool) log button (row : bool) infix x cells w :
  button_id button = scan_prefix row +:+ infix +:+ x ->
  String.length x = 1 ->
  mapM (fun k => board !! k) (line_cells row x) = Some cells ->
  length cells = 4 /\
  exists w',
    run (handle_scanner_press tp board log button) w =
    Return
      (log ++ [nl +:+ ">>> [ADVANCED COUNTING SCAN] COMMAND: "
                  +:+ button_label button +:+ "..."]
           ++ ["    ...Target list: " +:+ str_list cells]
           ++ [if decide (0 < count_true cells)%Z
               then "    >>> ANALYSIS: **" +:+ str_int (count_true cells)
                      +:+ " SHIP(S) DETECTED IN " +:+ button_label button
                      +:+ "!**"
               else "    ...ANALYSIS: " +:+ button_label button
                      +:+ " is ALL CLEAR."],
       mkButton (button_id button)
                ("SHIPS: " +:+ str_int (count_true cells))
                "scanner-used" true)
      w'.
Proof.
  intros Hid Hx Hc.
  pose proof (handle_scanner_press_run tp Hs board log button row infix x w
                Hid Hx) as H.
  rewrite Hc in H. exact H.
Qed.

Lemma handle_scanner_press_reports_witness :
  length [false; false; false; false] = 4 /\
  exists w',
    run (handle_scanner_press (fun c => c) board0 []
           (mkButton "scan-row-B" "Scan Row B" "scanner-button" false))
        world0 =
    Return
      ([] ++ [nl +:+ ">>> [ADVANCED COUNTING SCAN] COMMAND: "
                 +:+ button_label
                       (mkButton "scan-row-B" "Scan Row B" "scanner-button" false)
                 +:+ "..."]
          ++ ["    ...Target list: " +:+ str_list [false; false; false; false]]
          ++ [if decide (0 < count_true [false; false; false; false])%Z
              then "    >>> ANALYSIS: **"
                     +:+ str_int (count_true [false; false; false; false])
                     +:+ " SHIP(S) DETECTED IN "
                     +:+ button_label
                           (mkButton "scan-row-B" "Scan Row B"
                                     "scanner-button" false)
                     +:+ "!**"
              else "    ...ANALYSIS: "
                     +:+ button_label
                           (mkButton "scan-row-B" "Scan Row B"
                                     "scanner-button" false)
                     +:+ " is ALL CLEAR."],
       mkButton (button_id
                   (mkButton "scan-row-B" "Scan Row B" "scanner-button" false))
                ("SHIPS: " +:+ str_int (count_true [false; false; false; false]))
                "scanner-used" true)
      w'.
Proof.
  exact (handle_scanner_press_reports (fun c => c) sound_id board0 []
           (mkButton "scan-row-B" "Scan Row B" "scanner-button" false)
           true EmptyString "B" [false; false; false; false] world0
           eq_refl eq_refl ltac:(vm_compute; reflexivity)).
Defined.

Lemma buttons_of_compose :
  flat_map buttons_of compose =
  map (fun coord => mkButton coord coord "" false) all_coords
  ++ map (fun r => mkButton (scan_prefix true +:+ r) ("Scan Row " +:+ r)
                            "scanner-button" false) (str_iter ROWS)
  ++ map (fun c => mkButton (scan_prefix false +:+ c) ("Scan Col " +:+ c)
                            "scanner-button" false) (str_iter COLS).
Proof. vm_compute. reflexivity. Qed.

Lemma grid_ids_dispatch coord :
  In coord all_coords ->
  String.prefix "scan-row-" coord || String.prefix "scan-col-" coord = false
  /\ (String.length coord =? 2) = true.
Proof.
  intros H. vm_compute in H.
  repeat (destruct H as [<- | H]; [split; reflexivity|]). destruct H.
Qed.

Lemma on_button_pressed_scanner tp (board : gmap string bool) log button
    (row : bool) infix x :
  button_id button = scan_prefix row +:+ infix +:+ x ->
  on_button_pressed tp board log button =
  handle_scanner_press tp board log button.
Proof.
  intros Hid. unfold on_button_pressed. cbn zeta. rewrite Hid. destruct row.
  - rewrite prefix_app. reflexivity.
  - replace (String.prefix "scan-row-" (scan_prefix false +:+ infix +:+ x))
      with false by reflexivity.
    rewrite prefix_app. reflexivity.
Qed.

(** X12.  The interface that [compose] builds has 24 buttons with
    different ids, and on the board that loading the module builds,
    whatever the entropy, pressing any of them is handled without an
    exception: [on_button_pressed] adds at least one line to the log and
    returns the same button disabled, with the class [sector-ship] or
    [sector-clear] for a cell and [scanner-used] for a scanner.  A button
    whose id has neither scan prefix nor length 2 is ignored: nothing is
    logged and nothing changes. *)
Theorem every_button_is_handled tp (Hs : sound tp) w0 :
  length (flat_map buttons_of compose) = 24
  /\ NoDup (map button_id (flat_map buttons_of compose))
  /\ match run init_game w0 with
     | Return (ships, board) _ =>
         forall b, In b (flat_map buttons_of compose) ->
           forall log w, exists more b' w',
             run (on_button_pressed tp board log b) w = Return (log ++ more, b') w'
             /\ more <> []
             /\ button_id b' = button_id b
             /\ button_disabled b' = true
             /\ In (button_classes b')
                   ["sector-ship"; "sector-clear"; "scanner-used"]
     | Raise _ _ => False
     end
  /\ (forall (board : gmap string bool) log b w,
        String.prefix "scan-row-" (button_id b)
          || String.prefix "scan-col-" (button_id b) = false ->
        (String.length (button_id b) =? 2) = false ->
        run (on_button_pressed tp board log b) w = Return (log, b) w).
Proof.
  split; [reflexivity|]. split.
  { refine (bool_decide_unpack _ _). vm_compute. exact I. }
  split.
  2:{ intros board log b w H1 H2. unfold on_button_pressed. cbn zeta.
      rewrite H1, H2. reflexivity. }
  rewrite run_init_game.
  set (ships := sample_from all_coords SHIP_COUNT (entropy w0)).
  intros b Hb log w. rewrite buttons_of_compose in Hb.
  assert (Scanner : forall (row : bool) x label,
            In x (str_iter (if row then ROWS else COLS)) ->
            b = mkButton (scan_prefix row +:+ x) label "scanner-button" false ->
            exists more b' w',
              run (on_button_pressed tp (make_board ships) log b) w
                = Return (log ++ more, b') w'
              /\ more <> [] /\ button_id b' = button_id b
              /\ button_disabled b' = true
              /\ In (button_classes b')
                    ["sector-ship"; "sector-clear"; "scanner-used"]).
  { intros row x label Hx ->.
    pose proof (lines_on_board row) as Hl. rewrite List.Forall_forall in Hl.
    destruct (Hl x Hx) as [Hlen Hcells].
    rewrite (on_button_pressed_scanner tp (make_board ships) log
               (mkButton (scan_prefix row +:+ x) label "scanner-button" false)
               row EmptyString x eq_refl).
    pose proof (handle_scanner_press_run tp Hs (make_board ships) log
                  (mkButton (scan_prefix row +:+ x) label "scanner-button" false)
                  row EmptyString x w eq_refl Hlen) as H.
    rewrite (make_board_cells ships _ Hcells) in H.
    destruct H as (_ & w' & H). do 3 eexists. split; [exact H|].
    split; [discriminate|]. cbn. split; [reflexivity|]. split; [reflexivity|].
    right; right; left; reflexivity. }
  apply in_app_or in Hb as [Hb | Hb]; [|apply in_app_or in Hb as [Hb | Hb]].
  - apply in_map_iff in Hb as (coord & <- & Hc).
    destruct (grid_ids_dispatch coord Hc) as [H1 H2].
    unfold on_button_pressed. cbn zeta. cbn [button_id]. rewrite H1, H2.
    rewrite (handle_single_ping_run tp Hs). cbn [button_id button_label].
    destruct (default false (make_board ships !! coord));
      do 3 eexists; (split; [reflexivity|]); (split; [discriminate|]);
      cbn; (split; [reflexivity|]); (split; [reflexivity|]);
      first [left; reflexivity | right; left; reflexivity].
  - apply in_map_iff in Hb as (r & <- & Hr).
    apply (Scanner true r _ Hr eq_refl).
  - apply in_map_iff in Hb as (c & <- & Hc).
    apply (Scanner false c _ Hc eq_refl).
Qed.

Lemma every_button_is_handled_witness :
  length (flat_map buttons_of compose) = 24
  /\ NoDup (map button_id (flat_map buttons_of compose))
  /\ match run init_game world1 with
     | Return (ships, board) _ =>
         forall b, In b (flat_map buttons_of compose) ->
           forall log w, exists more b' w',
             run (on_button_pressed (fun c => c) board log b) w
               = Return (log ++ more, b') w'
             /\ more <> []
             /\ button_id b' = button_id b
             /\ button_disabled b' = true
             /\ In (button_classes b')
                   ["sector-ship"; "sector-clear"; "scanner-used"]
     | Raise _ _ => False
     end
  /\ (forall (board : gmap string bool) log b w,
        String.prefix "scan-row-" (button_id b)
          || String.prefix "scan-col-" (button_id b) = false ->
        (String.length (button_id b) =? 2) = false ->
        run (on_button_pressed (fun c => c) board log b) w = Return (log, b) w).
Proof. exact (every_button_is_handled (fun c => c) sound_id world1). Defined.

(* ------------------------------------------------------------------ *)
(** ** What the engines measure, and the boot check *)

Lemma filter_map_none {A} (p : Instruction -> bool) (f : A -> Instruction) l :
  (forall x, p (f x) = false) -> List.filter p (map f l) = [].
Proof.
  intros H. induction l as [|x l IH]; [reflexivity|].
  cbn [map List.filter]. rewrite H. exact IH.
Qed.

Lemma measures_of_scan si :
  List.filter is_measure (scan_gates si) =
  [Measure 0 0; Measure 1 1; Measure 2 2].
Proof.
  unfold scan_gates, kickback_gates. cbn [flat_map].
  rewrite !List.filter_app, !filter_map_none by reflexivity.
  reflexivity.
Qed.

(** X13.  Neither engine ever measures a target qubit.  The circuit that
    the sonar ping builds has a single measurement, of the probe qubit 0
    into classical bit 0; the circuit that the counting scan builds for
    four targets has exactly three measurements, of the counting qubits
    0, 1, 2 into the classical bits of the same index, in this order, and
    they come after every gate. *)
Theorem engines_measure_only_their_register tp (Hs : sound tp) :
  (forall t w, exists c bit r w',
      run (run_quantum_sonar_ping tp t) w = Return (bit, r) w'
      /\ heap w' !! length (heap w) = Some c
      /\ List.filter is_measure (data c) = [Measure 0 0]
      /\ exists gs, data c = gs ++ [Measure 0 0])
  /\ (forall targets w, length targets = 4 -> exists c n r w',
      run (run_quantum_counting_scan tp targets) w = Return (n, r) w'
      /\ heap w' !! length (heap w) = Some c
      /\ List.filter is_measure (data c)
         = [Measure 0 0; Measure 1 1; Measure 2 2]
      /\ exists gs, data c = gs ++ [Measure 0 0; Measure 1 1; Measure 2 2]
                    /\ List.filter is_measure gs = []).
Proof.
  split.
  - intros t w. do 4 eexists. split; [apply (ping_run tp Hs)|].
    cbn [heap]. split; [apply lookup_fresh|].
    split; [destruct t; reflexivity|].
    exists ((if t then [XGate 1] else [])
            ++ [Barrier; HGate 0; HGate 1; CXGate 0 1; HGate 1; HGate 0; Barrier]).
    destruct t; reflexivity.
  - intros targets w Hl. destruct (ship_indices_four targets Hl) as [si Hsi].
    do 4 eexists. split; [apply (scan_run_count tp Hs targets si w Hsi)|].
    cbn [heap]. split; [apply lookup_fresh|].
    split; [apply measures_of_scan|].
    exists (map XGate si ++ [HGate 0; HGate 1; HGate 2] ++ kickback_gates si
            ++ [Barrier] ++ map (remap [0; 1; 2]) (iqft_spec 3) ++ [Barrier]).
    split.
    + cbn [scan_circuit data]. unfold scan_gates. rewrite <- !app_assoc.
      reflexivity.
    + unfold kickback_gates. cbn [flat_map].
      rewrite !List.filter_app, !filter_map_none by reflexivity. reflexivity.
Qed.

Lemma engines_measure_only_their_register_witness :
  exists c n r w',
    run (run_quantum_counting_scan (fun c => c) [true; false; false; true]) world0
      = Return (n, r) w'
    /\ heap w' !! length (heap world0) = Some c
    /\ List.filter is_measure (data c)
       = [Measure 0 0; Measure 1 1; Measure 2 2]
    /\ exists gs, data c = gs ++ [Measure 0 0; Measure 1 1; Measure 2 2]
                  /\ List.filter is_measure gs = [].
Proof.
  exact (proj2 (engines_measure_only_their_register (fun c => c) sound_id)
           [true; false; false; true] world0 eq_refl).
Defined.

(** X14.  The boot check of [on_mount] never fails, whatever the world: it
    runs the ping twice and the scan twice and calls [log.write_line]
    eight times, with these strings in this order.  In the four test
    reports each measured value is the one announced beside it (0 for
    water, 1 for a ship, 2 and 3 for the two scans); they are followed by
    the status, which begins with a newline, the number of ships placed
    and the prompt. *)
Theorem on_mount_boot_check tp (Hs : sound tp) log w :
  exists w',
    run (on_mount tp log) w =
    Return (log ++
            [" QUANTUM SONAR SYSTEM BOOT CHECK ";
             "   [TEST 1] SINGLE PING (WATER): 0 (EXPECT 0)";
             "   [TEST 2] SINGLE PING (SHIP): 1 (EXPECT 1)";
             "   [TEST 3] COUNTING SCAN (2 SHIPS): 2 (EXPECT 2)";
             "   [TEST 4] COUNTING SCAN (3 SHIPS): 3 (EXPECT 3)";
             nl +:+ " ENGINE STATUS: NOMINAL (ALL SYSTEMS) ";
             " 4 ENEMY SIGNATURES PLACED ON GRID ";
             " AWAITING COMMANDS"]) w'.
Proof.
  eexists. unfold on_mount. cbn zeta.
  rewrite run_bind, (ping_run tp Hs). cbn beta iota.
  rewrite run_bind, (ping_run tp Hs). cbn beta iota.
  rewrite run_bind,
    (scan_run_count tp Hs [false; true; false; true] [4; 6] _ eq_refl).
  cbn beta iota.
  rewrite run_bind,
    (scan_run_count tp Hs [true; true; true; false] [3; 4; 5] _ eq_refl).
  cbn beta iota. unfold write_line. rewrite <- !app_assoc. reflexivity.
Qed.

Lemma on_mount_boot_check_witness :
  exists w',
    run (on_mount (fun c => c) []) world0 =
    Return ([] ++
            [" QUANTUM SONAR SYSTEM BOOT CHECK ";
             "   [TEST 1] SINGLE PING (WATER): 0 (EXPECT 0)";
             "   [TEST 2] SINGLE PING (SHIP): 1 (EXPECT 1)";
             "   [TEST 3] COUNTING SCAN (2 SHIPS): 2 (EXPECT 2)";
             "   [TEST 4] COUNTING SCAN (3 SHIPS): 3 (EXPECT 3)";
             nl +:+ " ENGINE STATUS: NOMINAL (ALL SYSTEMS) ";
             " 4 ENEMY SIGNATURES PLACED ON GRID ";
             " AWAITING COMMANDS"]) w'.
Proof. exact (on_mount_boot_check (fun c => c) sound_id [] world0). Defined.

(** X15.  [handle_scanner_press] has no branch for an id with neither scan
    prefix (where [handle_scan] of [app.py] answers "Invalid scan ID"):
    called on such a button it scans the empty list of targets, reads no
    cell of the board, writes the target list [[]] and ALL CLEAR to the
    log, and labels the button "SHIPS: 0", disabled and [scanner-used]. *)
Theorem handle_scanner_press_without_prefix tp (Hs : sound tp)
    (board : gmap string bool) log button w :
  String.prefix "scan-row-" (button_id button) = false ->
  String.prefix "scan-col-" (button_id button) = false ->
  exists w',
    run (handle_scanner_press tp board log button) w =
    Return (log ++ [nl +:+ ">>> [ADVANCED COUNTING SCAN] COMMAND: "
                       +:+ button_label button +:+ "...";
                    "    ...Target list: []";
                    "    ...ANALYSIS: " +:+ button_label button
                       +:+ " is ALL CLEAR."],
            mkButton (button_id button) "SHIPS: 0" "scanner-used" true) w'.
Proof.
  intros H1 H2. eexists. unfold handle_scanner_press. cbn zeta.
  rewrite H1, H2. rewrite run_bind, run_mret, run_bind.
  rewrite (scan_run_count tp Hs [] [] _ eq_refl).
  cbn beta iota. unfold write_line. rewrite <- !app_assoc. reflexivity.
Qed.

Lemma handle_scanner_press_without_prefix_witness :
  exists w',
    run (handle_scanner_press (fun c => c) board0 []
           (mkButton "A1" "A1" "" false)) world0 =
    Return ([] ++ [nl +:+ ">>> [ADVANCED COUNTING SCAN] COMMAND: "
                      +:+ button_label (mkButton "A1" "A1" "" false) +:+ "...";
                   "    ...Target list: []";
                   "    ...ANALYSIS: "
                      +:+ button_label (mkButton "A1" "A1" "" false)
                      +:+ " is ALL CLEAR."],
            mkButton (button_id (mkButton "A1" "A1" "" false)) "SHIPS: 0"
                     "scanner-used" true) w'.
Proof.
  exact (handle_scanner_press_without_prefix (fun c => c) sound_id board0 []
           (mkButton "A1" "A1" "" false) world0 eq_refl eq_refl).
Defined.
